(** * Performance analysis engine of playwright-har-reporter

    A shallow embedding of the analysis code of
    [src/helpers/performance-monitor.ts] (class [PerformanceMonitor], the
    objects [PerformanceConfig] and [ReportUtils], the class
    [PerformanceConfigBuilder]) and of the badge of
    [src/helpers/performance-reporter.ts], and the properties of their
    report data.

    Conventions of the embedding.
    - A JavaScript number is an exact rational ([Qc], canonical fractions,
      so that numeric equality is Leibniz equality). IEEE-754 rounding,
      [NaN] and negative zero are outside the model; [Infinity] appears
      only as the initial [minTime] of an endpoint and has its own
      constructor there.
    - Counters that the code obtains from [Array.prototype.length] or by
      [++] from [0] are [nat]; they are injected into [Qc] where the code
      does arithmetic on them.
    - A property that may be absent ([undefined]) is an [option]; the
      idiom [x || d] is [default d x] for strings and [or0] for numbers.
    - [Record<string, T>] objects are [gmap string T].
    - [console.warn] and [console.error] are collected in a log that the
      functions return next to their value. *)

From Stdlib Require Import QArith Qcanon Qround Lqa Ascii String DecimalString.
From stdpp Require Import gmap strings list fin_maps numbers sorting.

Local Open Scope Qc_scope.

(** ** Numbers *)

(** Integer literal as a JavaScript number. *)
Definition num (z : Z) : Qc := Q2Qc (inject_Z z).

(** A [nat] counter read as a JavaScript number. *)
Definition num_of_nat (n : nat) : Qc := num (Z.of_nat n).

(** [x || 0] on a possibly absent number. *)
Definition or0 (x : option Qc) : Qc := default 0 x.

(** Truthiness of a possibly absent number: present and not zero. *)
Definition truthy (x : option Qc) : bool :=
  match x with
  | Some q => bool_decide (q ≠ 0)
  | None => false
  end.

(** [a > b] on numbers. *)
Definition gt (a b : Qc) : bool := bool_decide (b < a).

(** [Math.max(a, b)] and [Math.min(a, b)] on finite numbers. *)
Definition Math_max (a b : Qc) : Qc := if bool_decide (a ≤ b) then b else a.
Definition Math_min (a b : Qc) : Qc := if bool_decide (a ≤ b) then a else b.

(** [Math.ceil] and [Math.floor]. *)
Definition Math_ceil (x : Qc) : Z := Qceiling x.
Definition Math_floor (x : Qc) : Z := Qfloor x.

(** A number that may be [Infinity] (only [EndpointMetrics.minTime]). *)
Inductive extnum : Type :=
  | Finite (q : Qc)
  | Infinity.

(** [Math.min(m, t)] where [m] may be [Infinity]. *)
Definition ext_min (m : extnum) (t : Qc) : extnum :=
  match m with
  | Infinity => Finite t
  | Finite q => Finite (Math_min q t)
  end.

(** [m <= x] where [m] may be [Infinity]. *)
Definition ext_le (m : extnum) (x : Qc) : Prop :=
  match m with
  | Infinity => False
  | Finite q => q ≤ x
  end.

(** ** Array.prototype.sort with a comparator

    The comparator returns a number; a result [<= 0] keeps [x] in front
    of [y]. The sort of the language is stable, and so is this insertion
    sort: an element is put in front of the first element it does not
    exceed, and elements are inserted from the right. *)

Fixpoint sort_insert {A : Type} (cmp : A → A → Qc) (x : A) (l : list A) : list A :=
  match l with
  | [] => [x]
  | y :: l' =>
      if bool_decide (cmp x y ≤ 0) then x :: y :: l'
      else y :: sort_insert cmp x l'
  end.

Definition Array_sort {A : Type} (cmp : A → A → Qc) (l : list A) : list A :=
  foldr (sort_insert cmp) [] l.

(** [[...values].sort((a, b) => a - b)] *)
Definition sort_ascending (values : list Qc) : list Qc :=
  Array_sort (λ a b, a - b) values.

(** ** Statistics *)

(** [calculateMedian]. Both indices are inside the array whenever the
    array is not empty (lemma [calculateMedian_indices]), so the default
    of [nth] is never returned. *)
Definition calculateMedian (values : list Qc) : Qc :=
  match values with
  | [] => 0
  | _ =>
      let sorted := sort_ascending values in
      let mid := (length sorted / 2)%nat in
      if bool_decide (length sorted mod 2 ≠ 0)%nat
      then nth mid sorted 0
      else (nth (mid - 1) sorted 0 + nth mid sorted 0) / num 2
  end.

(** [calculatePercentile]. [sorted[i]] is [undefined] ([None]) when [i]
    is past the end of the array. *)
Definition calculatePercentile (values : list Qc) (percentile : Qc) : option Qc :=
  match values with
  | [] => Some 0
  | _ =>
      let sorted := sort_ascending values in
      let index := (Math_ceil ((percentile / num 100) * num_of_nat (length sorted)) - 1)%Z in
      sorted !! Z.to_nat (Z.max 0 index)
  end.

(** ** Strings *)

(** [s.includes(sub)] *)
Fixpoint includes (s sub : string) : bool :=
  String.prefix sub s ||
  match s with
  | EmptyString => false
  | String _ s' => includes s' sub
  end.

(** [s] ends with [suffix]. *)
Fixpoint endsWith (s suffix : string) : bool :=
  String.eqb s suffix ||
  match s with
  | EmptyString => false
  | String _ s' => endsWith s' suffix
  end.

(** Case folding of the [i] flag on the letters A-Z (the patterns below
    contain ASCII only, and a character outside ASCII never matches an
    ASCII letter). *)
Definition lower_ascii (c : ascii) : ascii :=
  let n := N_of_ascii c in
  if ((65 <=? n) && (n <=? 90))%N then ascii_of_N (n + 32) else c.

Fixpoint toLowerCase (s : string) : string :=
  match s with
  | EmptyString => EmptyString
  | String c s' => String (lower_ascii c) (toLowerCase s')
  end.

(** [url.match(/\.(e1|e2|...)$/i)] as a truth value: the url ends, up to
    the case of letters, with a dot followed by one of the extensions. *)
Definition match_extension (url : string) (extensions : list string) : bool :=
  existsb (λ ext, endsWith (toLowerCase url) ("." +:+ ext)) extensions.

(** [String(x)] of a possibly absent string, as a template literal or the
    [URL] constructor convert it. *)
Definition String_of (x : option string) : string := default "undefined" x.

(** ** HAR entries (the fields the engine reads) *)

Record Content : Type := { mimeType : option string }.

Record Response : Type := {
  status : option Qc;
  statusText : option string;
  bodySize : option Qc;
  content : option Content
}.

Record Request : Type := {
  url : option string;
  method : option string
}.

Record Entry : Type := {
  request : option Request;
  response : option Response;
  time : option Qc
}.

(** [entry.request?.url || ''] *)
Definition entry_url (e : Entry) : string :=
  default "" (request e ≫= url).

(** [entry.request?.method || ''] *)
Definition entry_method (e : Entry) : string :=
  default "" (request e ≫= method).

(** [entry.response?.content?.mimeType || ''] *)
Definition entry_mimeType (e : Entry) : string :=
  default "" ((response e ≫= content) ≫= mimeType).

(** [entry.time || 0] *)
Definition entry_time (e : Entry) : Qc := or0 (time e).

(** [entry.response?.bodySize] and [entry.response?.bodySize || 0] *)
Definition entry_bodySize (e : Entry) : option Qc := response e ≫= bodySize.
Definition entry_size (e : Entry) : Qc := or0 (entry_bodySize e).

(** [entry.response?.status >= 400] ([undefined >= 400] is false) *)
Definition is_failed (e : Entry) : bool :=
  match response e ≫= status with
  | Some s => bool_decide (num 400 ≤ s)
  | None => false
  end.

(** ** Report data *)

Record Summary : Type := {
  totalRequests : nat;
  totalTime : Qc;
  totalSize : Qc;
  failedRequests : nat;
  averageResponseTime : Qc;
  medianResponseTime : Qc;
  percentile95 : option Qc;
  percentile99 : option Qc
}.

Record RequestTypeMetrics : Type := {
  count : nat;
  rt_totalTime : Qc;
  rt_totalSize : Qc;
  averageTime : option Qc
}.

Record RequestInfo : Type := {
  ri_url : string;
  ri_method : string;
  ri_time : Qc;
  ri_status : Qc
}.

Record FailedRequestInfo : Type := {
  fr_url : string;
  fr_method : string;
  fr_status : option Qc;
  fr_statusText : string;
  fr_time : Qc
}.

Record LargeRequestInfo : Type := {
  lr_url : string;
  lr_size : Qc;
  lr_time : Qc
}.

Record EndpointMetrics : Type := {
  ep_count : nat;
  ep_totalTime : Qc;
  ep_averageTime : Qc;
  minTime : extnum;
  maxTime : Qc
}.

Record ApiMetrics : Type := {
  totalCalls : nat;
  endpoints : gmap string EndpointMetrics
}.

Record ThresholdViolation : Type := {
  metric : string;
  threshold : Qc;
  actual : Qc;
  message : string
}.

Record PerformanceThresholds : Type := {
  maxAverageResponseTime : option Qc;
  maxFailedRequests : option Qc;
  maxTotalTime : option Qc;
  maxRequestTime : option Qc;
  maxPageLoadTime : option Qc
}.

Record Performance : Type := {
  slowestRequests : list RequestInfo;
  perf_failedRequests : list FailedRequestInfo;
  largestRequests : list LargeRequestInfo
}.

(** [PerformanceReport]. [timestamp], [harFile] and [testDuration] come
    from the clock and the file system and are left out; [customMetrics]
    carries [pageLoadTime] when the page has fired its [load] event. *)
Record PerformanceReport : Type := {
  testName : option string;
  summary : Summary;
  requestTypes : gmap string RequestTypeMetrics;
  performance : Performance;
  apiMetrics : ApiMetrics;
  customMetrics : gmap string Qc;
  thresholdViolations : option (list ThresholdViolation)
}.

(** Console output: the fixed text of the message (the path or the error
    object that the code appends is left out). *)
Inductive LogLine : Type :=
  | console_error (text : string)
  | console_warn (text : string).

(** ** calculateSummary *)

Definition calculateSummary (entries : list Entry) : Summary :=
  match entries with
  | [] =>
      {| totalRequests := 0; totalTime := 0; totalSize := 0;
         failedRequests := 0; averageResponseTime := 0;
         medianResponseTime := 0;
         percentile95 := Some 0; percentile99 := Some 0 |}
  | _ =>
      let times := entry_time <$> entries in
      let total := foldl (λ sum t, sum + t) 0 times in
      {| totalRequests := length entries;
         totalTime := total;
         totalSize := foldl (λ sum e, sum + entry_size e) 0 entries;
         failedRequests := length (filter (λ e, is_failed e) entries);
         averageResponseTime :=
           if bool_decide (0 < length entries)%nat
           then total / num_of_nat (length entries) else 0;
         medianResponseTime := calculateMedian times;
         percentile95 := calculatePercentile times (num 95);
         percentile99 := calculatePercentile times (num 99) |}
  end.

(** ** categorizeRequests *)

Inductive Category : Type :=
  | api | javascript | css | images | fonts | html | other.

#[global] Instance Category_eq_dec : EqDecision Category.
Proof. solve_decision. Defined.

(** The property name of a category in the [categories] object. *)
Definition category_key (c : Category) : string :=
  match c with
  | api => "api"
  | javascript => "javascript"
  | css => "css"
  | images => "images"
  | fonts => "fonts"
  | html => "html"
  | other => "other"
  end.

Definition all_categories : list Category :=
  [api; javascript; css; images; fonts; html; other].

Definition zero_metrics : RequestTypeMetrics :=
  {| count := 0; rt_totalTime := 0; rt_totalSize := 0; averageTime := None |}.

Definition initial_categories : gmap string RequestTypeMetrics :=
  list_to_map ((λ c, (category_key c, zero_metrics)) <$> all_categories).

(** The [if ... else if ...] chain of the [forEach] callback. *)
Definition category_of (entry : Entry) : Category :=
  let url := entry_url entry in
  let mimeType := entry_mimeType entry in
  if includes url "/api/" || includes url "graphql" ||
     includes url "/rest/" || includes mimeType "json"
  then api
  else if match_extension url ["js"; "mjs"; "jsx"; "ts"; "tsx"] ||
          includes mimeType "javascript"
  then javascript
  else if match_extension url ["css"; "scss"; "sass"; "less"] ||
          includes mimeType "css"
  then css
  else if match_extension url
            ["png"; "jpg"; "jpeg"; "gif"; "svg"; "webp"; "ico"; "bmp"] ||
          includes mimeType "image"
  then images
  else if match_extension url ["woff"; "woff2"; "ttf"; "eot"; "otf"] ||
          includes mimeType "font"
  then fonts
  else if match_extension url ["html"; "htm"] || includes mimeType "html"
  then html
  else other.

(** The three updates of [categories[category]] for one entry. *)
Definition add_entry (entry : Entry) (m : RequestTypeMetrics) : RequestTypeMetrics :=
  {| count := S (count m);
     rt_totalTime := rt_totalTime m + entry_time entry;
     rt_totalSize := rt_totalSize m + entry_size entry;
     averageTime := averageTime m |}.

Definition categorize_entry (categories : gmap string RequestTypeMetrics)
    (entry : Entry) : gmap string RequestTypeMetrics :=
  alter (add_entry entry) (category_key (category_of entry)) categories.

(** The second pass, over [Object.keys(categories)]. *)
Definition set_averageTime (m : RequestTypeMetrics) : RequestTypeMetrics :=
  if bool_decide (0 < count m)%nat
  then {| count := count m;
          rt_totalTime := rt_totalTime m;
          rt_totalSize := rt_totalSize m;
          averageTime := Some (rt_totalTime m / num_of_nat (count m)) |}
  else m.

Definition categorizeRequests (entries : list Entry) : gmap string RequestTypeMetrics :=
  match entries with
  | [] => initial_categories
  | _ => set_averageTime <$> foldl categorize_entry initial_categories entries
  end.

(** [categories[key].count], [0] for a key that is not there. *)
Definition category_count (categories : gmap string RequestTypeMetrics)
    (c : Category) : nat :=
  from_option count 0%nat (categories !! category_key c).

(** ** Rankings *)

Definition getSlowRequests (entries : list Entry) (limit : nat) : list RequestInfo :=
  match entries with
  | [] => []
  | _ =>
      (λ e, {| ri_url := entry_url e;
               ri_method := entry_method e;
               ri_time := entry_time e;
               ri_status := or0 (response e ≫= status) |})
      <$> take limit
            (Array_sort (λ a b, entry_time b - entry_time a)
               (filter (λ e, is_Some (request e) ∧ is_Some (response e)) entries))
  end.

Definition getFailedRequests (entries : list Entry) : list FailedRequestInfo :=
  match entries with
  | [] => []
  | _ =>
      (λ e, {| fr_url := entry_url e;
               fr_method := entry_method e;
               fr_status := response e ≫= status;
               fr_statusText := default "" (response e ≫= statusText);
               fr_time := entry_time e |})
      <$> filter (λ e, is_failed e) entries
  end.

(** The arrow function of the final [map] of [getLargestRequests]. *)
Definition large_request_info (e : Entry) : LargeRequestInfo :=
  {| lr_url := entry_url e;
     lr_size := entry_size e;
     lr_time := entry_time e |}.

Definition getLargestRequests (entries : list Entry) (limit : nat) : list LargeRequestInfo :=
  match entries with
  | [] => []
  | _ =>
      large_request_info
      <$> take limit
            (Array_sort (λ a b, entry_size b - entry_size a)
               (filter (λ e, truthy (entry_bodySize e)) entries))
  end.

(** ** checkThresholds *)

Definition checkThresholds (thresholds : option PerformanceThresholds)
    (report : PerformanceReport) : list ThresholdViolation :=
  let violations := [] in
  match thresholds with
  | None => violations
  | Some th =>
      let violations :=
        if truthy (maxAverageResponseTime th) &&
           gt (averageResponseTime (summary report)) (or0 (maxAverageResponseTime th))
        then violations ++
             [{| metric := "averageResponseTime";
                 threshold := or0 (maxAverageResponseTime th);
                 actual := averageResponseTime (summary report);
                 message := "Average response time exceeded threshold" |}]
        else violations in
      let violations :=
        match maxFailedRequests th with
        | Some bound =>
            if gt (num_of_nat (failedRequests (summary report))) bound
            then violations ++
                 [{| metric := "failedRequests";
                     threshold := bound;
                     actual := num_of_nat (failedRequests (summary report));
                     message := "Failed requests exceeded threshold" |}]
            else violations
        | None => violations
        end in
      violations
  end.

(** ** toFixed(2)

    [Number.prototype.toFixed] with two fraction digits, for a number
    below [10^21] in absolute value: the sign, then the integer [n] for
    which [n / 100] is nearest to the number (the larger one on a tie),
    written with the decimal point before its last two digits. *)

(** The decimal digits of a natural number. *)
Definition decimal (n : Z) : string :=
  NilEmpty.string_of_uint (N.to_uint (Z.to_N n)).

Definition two_digits (n : Z) : string :=
  decimal (n / 10) +:+ decimal (n mod 10).

Definition toFixed2 (x : Qc) : string :=
  let a := if bool_decide (x < 0) then - x else x in
  let n := Math_floor (a * num 100 + 1 / num 2) in
  (if bool_decide (x < 0) then "-" else "") +:+
  decimal (n / 100) +:+ "." +:+ two_digits (n mod 100).

(** ** ReportUtils.aggregateReports *)








(** ** getApiMetrics and generateReport

    [new URL(s)] is the platform's parser: [URL_pathname s] is the
    [pathname] of the parsed URL, [None] when the constructor throws. *)

Definition is_api_call (e : Entry) : bool :=
  let url := entry_url e in
  let mimeType := entry_mimeType e in
  includes url "/api/" ||
  includes url "graphql" ||
  includes url "/rest/" ||
  includes url "/SXMain/" ||
  includes url "/moduleservices/" ||
  includes mimeType "json".

Definition new_endpoint : EndpointMetrics :=
  {| ep_count := 0; ep_totalTime := 0; ep_averageTime := 0;
     minTime := Infinity; maxTime := 0 |}.

(** The four updates of [endpoints[key]] for one call. *)
Definition add_sample (t : Qc) (m : EndpointMetrics) : EndpointMetrics :=
  {| ep_count := S (ep_count m);
     ep_totalTime := ep_totalTime m + t;
     ep_averageTime := ep_averageTime m;
     minTime := ext_min (minTime m) t;
     maxTime := Math_max (maxTime m) t |}.

Definition set_ep_averageTime (m : EndpointMetrics) : EndpointMetrics :=
  if bool_decide (0 < ep_count m)%nat
  then {| ep_count := ep_count m;
          ep_totalTime := ep_totalTime m;
          ep_averageTime := ep_totalTime m / num_of_nat (ep_count m);
          minTime := minTime m;
          maxTime := maxTime m |}
  else m.

Definition invalid_url_warning (call : Entry) : LogLine :=
  console_warn ("Invalid URL in API metrics: " +:+ String_of (request call ≫= url)).

(** HAR document after [JSON.parse]: [harData?.log?.entries]. *)
Record HarLog : Type := { har_entries : option (list Entry) }.
Record HarData : Type := { har_log : option HarLog }.

(** What [fs.existsSync], [fs.readFileSync] and [JSON.parse] find at
    [harPath]: no file, bytes that do not parse, or a document. *)
Inductive HarFile : Type :=
  | har_missing
  | har_unparsable
  | har_parsed (harData : HarData).

(** The fields of the monitor that [generateReport] reads. *)
Record Monitor : Type := {
  harFile : HarFile;
  config_testName : option string;
  monitor_customMetrics : gmap string Qc;
  monitor_thresholds : option PerformanceThresholds
}.

Section Engine.

Variable URL_pathname : string → option string.

(** The [try] block for one call; the [catch] branch logs and goes on.
    [call.request.url] throws when [call.request] is absent, like the
    constructor on a string it cannot parse. *)
Definition record_call (state : gmap string EndpointMetrics * list LogLine)
    (call : Entry) : gmap string EndpointMetrics * list LogLine :=
  let (endpoints, log) := state in
  match request call with
  | None => (endpoints, log ++ [invalid_url_warning call])
  | Some req =>
      match URL_pathname (String_of (url req)) with
      | None => (endpoints, log ++ [invalid_url_warning call])
      | Some pathname =>
          let key := String_of (method req) +:+ " " +:+ pathname in
          let current := default new_endpoint (endpoints !! key) in
          (<[key := add_sample (entry_time call) current]> endpoints, log)
      end
  end.

Definition getApiMetrics (entries : list Entry) : ApiMetrics * list LogLine :=
  match entries with
  | [] => ({| totalCalls := 0; endpoints := ∅ |}, [])
  | _ =>
      let apiCalls := filter (λ e, is_api_call e) entries in
      match apiCalls with
      | [] => ({| totalCalls := 0; endpoints := ∅ |}, [])
      | _ =>
          let (endpoints, log) := foldl record_call (∅, []) apiCalls in
          ({| totalCalls := length apiCalls;
              endpoints := set_ep_averageTime <$> endpoints |}, log)
      end
  end.

Definition generateReport (this : Monitor) : option PerformanceReport * list LogLine :=
  match harFile this with
  | har_missing => (None, [console_error "HAR file not found"])
  | har_unparsable => (None, [console_error "Failed to parse HAR file"])
  | har_parsed harData =>
      let entries := default [] (har_log harData ≫= har_entries) in
      match entries with
      | [] => (None, [console_warn "No entries found in HAR file"])
      | _ =>
          let (api, log) := getApiMetrics entries in
          let report :=
            {| testName := config_testName this;
               summary := calculateSummary entries;
               requestTypes := categorizeRequests entries;
               performance :=
                 {| slowestRequests := getSlowRequests entries 10;
                    perf_failedRequests := getFailedRequests entries;
                    largestRequests := getLargestRequests entries 5 |};
               apiMetrics := api;
               customMetrics := monitor_customMetrics this;
               thresholdViolations := None |} in
          let report :=
            match monitor_thresholds this with
            | Some _ =>
                {| testName := testName report;
                   summary := summary report;
                   requestTypes := requestTypes report;
                   performance := performance report;
                   apiMetrics := apiMetrics report;
                   customMetrics := customMetrics report;
                   thresholdViolations :=
                     Some (checkThresholds (monitor_thresholds this) report) |}
            | None => report
            end in
          (Some report, log)
      end
  end.

End Engine.

(** ** The categorization rules as the specification lists them

    One row per rule, in the order of precedence: the category, the
    substrings of the url, the extensions of the url and the substring of
    the content type that select it. The first row that matches decides;
    [other] when none does. *)





(** The sum of [count] over the seven categories. *)
Definition total_count (categories : gmap string RequestTypeMetrics) : nat :=
  sum_list (category_count categories <$> all_categories).

(** Every category has its property in the [categories] object. *)
Definition all_keys (categories : gmap string RequestTypeMetrics) : Prop :=
  ∀ c, is_Some (categories !! category_key c).

(** The [URL] constructor accepts the url of the call. *)
Definition url_parses (URL_pathname : string → option string) (call : Entry) : bool :=
  match request call with
  | None => false
  | Some req => bool_decide (is_Some (URL_pathname (String_of (url req))))
  end.

(** The bounds an endpoint's metrics keep between two calls, and the ones
    they have once a call has been recorded. *)
Definition endpoint_bounds (m : EndpointMetrics) : Prop :=
  0 ≤ ep_totalTime m ∧ maxTime m ≤ ep_totalTime m.

Definition endpoint_sampled (m : EndpointMetrics) : Prop :=
  (0 < ep_count m)%nat ∧ ext_le (minTime m) (maxTime m) ∧ endpoint_bounds m.

(** The entries that [generateReport] analyses:
    [harData?.log?.entries || []] of the parsed document. *)
Definition trace_entries (this : Monitor) : list Entry :=
  match harFile this with
  | har_parsed harData => default [] (har_log harData ≫= har_entries)
  | _ => []
  end.

(** A threshold object in which the three bounds that [checkThresholds]
    does not read are removed. *)
Definition checked_bounds_only (th : PerformanceThresholds) : PerformanceThresholds :=
  {| maxAverageResponseTime := maxAverageResponseTime th;
     maxFailedRequests := maxFailedRequests th;
     maxTotalTime := None;
     maxRequestTime := None;
     maxPageLoadTime := None |}.

(** Sums, as a right fold ([reduce] is the left fold). *)
Definition sum_Qc (l : list Qc) : Qc := foldr Qcplus 0 l.

(** The largest element of a list of numbers ([Math.max(...l)] on a list
    that is not empty). *)
Definition maximum (l : list Qc) : Qc :=
  match l with
  | [] => 0
  | x :: l' => foldl Math_max x l'
  end.

(** The smallest element of a list of numbers ([Math.min(...l)] on a list
    that is not empty). *)
Definition minimum (l : list Qc) : Qc :=
  match l with
  | [] => 0
  | x :: l' => foldl Math_min x l'
  end.

(** The entries that [category_of] puts in a category. *)
Definition entries_of_category (c : Category) (entries : list Entry) : list Entry :=
  filter (λ e, category_of e = c) entries.

(** [categories[key].totalTime] and [categories[key].totalSize], [0] for
    a key that is not there. *)
Definition category_totalTime (categories : gmap string RequestTypeMetrics)
    (c : Category) : Qc :=
  from_option rt_totalTime 0 (categories !! category_key c).

Definition category_totalSize (categories : gmap string RequestTypeMetrics)
    (c : Category) : Qc :=
  from_option rt_totalSize 0 (categories !! category_key c).

(** The property name under which [getApiMetrics] records a call:
    [`${call.request.method} ${url.pathname}`], none when the [try] block
    throws before it is computed. *)
Definition call_key (URL_pathname : string → option string) (call : Entry) : option string :=
  match request call with
  | None => None
  | Some req =>
      (λ pathname, String_of (method req) +:+ " " +:+ pathname)
      <$> URL_pathname (String_of (url req))
  end.

(** The sum of [count] over the endpoints. *)
Definition endpoint_calls (endpoints : gmap string EndpointMetrics) : nat :=
  map_fold (λ _ m total, ep_count m + total)%nat 0%nat endpoints.

(** The arrow functions of the final [map] of [getSlowRequests] and of
    [getFailedRequests]. *)
Definition slow_request_info (e : Entry) : RequestInfo :=
  {| ri_url := entry_url e;
     ri_method := entry_method e;
     ri_time := entry_time e;
     ri_status := or0 (response e ≫= status) |}.

Definition failed_request_info (e : Entry) : FailedRequestInfo :=
  {| fr_url := entry_url e;
     fr_method := entry_method e;
     fr_status := response e ≫= status;
     fr_statusText := default "" (response e ≫= statusText);
     fr_time := entry_time e |}.

(** [e.request && e.response] *)
Definition has_request_and_response (e : Entry) : Prop :=
  is_Some (request e) ∧ is_Some (response e).

(** [checkThresholds] reports a violation for the metric [m]. *)
Definition flags (th : PerformanceThresholds) (report : PerformanceReport)
    (m : string) : Prop :=
  ∃ v, v ∈ checkThresholds (Some th) report ∧ metric v = m.

(** ** PerformanceConfig.getThresholds *)

Inductive ThresholdLevel : Type :=
  | level_default | level_strict | level_relaxed.

(** [PerformanceConfig.thresholds] *)
Definition preset_thresholds (level : ThresholdLevel) : PerformanceThresholds :=
  match level with
  | level_default =>
      {| maxAverageResponseTime := Some (num 3000);
         maxFailedRequests := Some (num 0);
         maxTotalTime := Some (num 60000);
         maxRequestTime := Some (num 10000);
         maxPageLoadTime := Some (num 5000) |}
  | level_strict =>
      {| maxAverageResponseTime := Some (num 1000);
         maxFailedRequests := Some (num 0);
         maxTotalTime := Some (num 30000);
         maxRequestTime := Some (num 3000);
         maxPageLoadTime := Some (num 2000) |}
  | level_relaxed =>
      {| maxAverageResponseTime := Some (num 5000);
         maxFailedRequests := Some (num 5);
         maxTotalTime := Some (num 120000);
         maxRequestTime := Some (num 15000);
         maxPageLoadTime := Some (num 10000) |}
  end.

(** [envLevel === 'default' || envLevel === 'strict' || envLevel ===
    'relaxed'], with the level it names. *)
Definition level_of_env (envLevel : string) : option ThresholdLevel :=
  if String.eqb envLevel "default" then Some level_default
  else if String.eqb envLevel "strict" then Some level_strict
  else if String.eqb envLevel "relaxed" then Some level_relaxed
  else None.

(** [getThresholds(level)]; [envLevel] is [process.env.THRESHOLD_LEVEL]. *)
Definition getThresholds (level : option ThresholdLevel)
    (envLevel : option string) : PerformanceThresholds :=
  let thresholdLevel :=
    match level with
    | Some l => l
    | None =>
        match envLevel ≫= level_of_env with
        | Some l => l
        | None => level_default
        end
    end in
  preset_thresholds thresholdLevel.

(** ** PerformanceMonitorConfig, PerformanceConfig.getConfig and
    PerformanceConfigBuilder *)

Inductive RecordHarMode : Type := mode_full | mode_minimal.

(** The values that the configurations put in [customMetrics]. *)
Inductive MetricValue : Type :=
  | value_string (s : string)
  | value_bool (b : bool)
  | value_number (q : Qc).

Record PerformanceMonitorConfig : Type := {
  cfg_testName : option string;
  harDir : option string;
  reportDir : option string;
  recordHarMode : option RecordHarMode;
  captureScreenshots : option bool;
  cfg_customMetrics : option (gmap string MetricValue)
}.

(** [{}] *)
Definition empty_config : PerformanceMonitorConfig :=
  {| cfg_testName := None; harDir := None; reportDir := None;
     recordHarMode := None; captureScreenshots := None;
     cfg_customMetrics := None |}.

(** [{ ...a, ...b }]: a property of [b] replaces the one of [a]. *)
Definition spread (a b : PerformanceMonitorConfig) : PerformanceMonitorConfig :=
  {| cfg_testName := cfg_testName b ∪ cfg_testName a;
     harDir := harDir b ∪ harDir a;
     reportDir := reportDir b ∪ reportDir a;
     recordHarMode := recordHarMode b ∪ recordHarMode a;
     captureScreenshots := captureScreenshots b ∪ captureScreenshots a;
     cfg_customMetrics := cfg_customMetrics b ∪ cfg_customMetrics a |}.

(** [PerformanceConfig.default] *)
Definition config_default : PerformanceMonitorConfig :=
  {| cfg_testName := None;
     harDir := Some "test-results/har";
     reportDir := Some "test-results/reports";
     recordHarMode := Some mode_full;
     captureScreenshots := Some false;
     cfg_customMetrics := None |}.

(** [PerformanceConfig.environments[env]]; a name that is not a property
    of the object gives nothing to spread. *)
Definition environments (env : string) : PerformanceMonitorConfig :=
  if String.eqb env "local" then
    {| cfg_testName := None;
       harDir := Some "test-results/local/har";
       reportDir := Some "test-results/local/reports";
       recordHarMode := Some mode_full;
       captureScreenshots := None;
       cfg_customMetrics := None |}
  else if String.eqb env "staging" then
    {| cfg_testName := None;
       harDir := Some "test-results/staging/har";
       reportDir := Some "test-results/staging/reports";
       recordHarMode := Some mode_full;
       captureScreenshots := Some true;
       cfg_customMetrics := None |}
  else if String.eqb env "production" then
    {| cfg_testName := None;
       harDir := Some "test-results/production/har";
       reportDir := Some "test-results/production/reports";
       recordHarMode := Some mode_full;
       captureScreenshots := Some true;
       cfg_customMetrics :=
         Some {[ "environment" := value_string "production";
                 "monitoringEnabled" := value_bool true ]} |}
  else empty_config.

(** [PerformanceConfig.testTypes[type]] *)
Definition testTypes (type : string) : PerformanceMonitorConfig :=
  if String.eqb type "smoke" then
    {| cfg_testName := Some "smoke-test";
       harDir := None; reportDir := None;
       recordHarMode := Some mode_minimal;
       captureScreenshots := None;
       cfg_customMetrics := None |}
  else if String.eqb type "regression" then
    {| cfg_testName := Some "regression-test";
       harDir := None; reportDir := None;
       recordHarMode := Some mode_full;
       captureScreenshots := Some true;
       cfg_customMetrics := None |}
  else if String.eqb type "performance" then
    {| cfg_testName := Some "performance-test";
       harDir := None; reportDir := None;
       recordHarMode := Some mode_full;
       captureScreenshots := Some false;
       cfg_customMetrics :=
         Some {[ "testType" := value_string "performance";
                 "detailedMetrics" := value_bool true ]} |}
  else empty_config.

(** A string argument or environment variable that is truthy. *)
Definition truthy_string (s : option string) : option string :=
  s ≫= λ s', if String.eqb s' "" then None else Some s'.

(** [getConfig(environment, testType)]; [TEST_ENV] and [TEST_TYPE] are
    the variables of [process.env]. *)
Definition getConfig (environment testType TEST_ENV TEST_TYPE : option string)
    : PerformanceMonitorConfig :=
  let env := default "local" (truthy_string environment ∪ truthy_string TEST_ENV) in
  let type := default "regression" (truthy_string testType ∪ truthy_string TEST_TYPE) in
  spread (spread config_default (environments env)) (testTypes type).

Inductive ThresholdKey : Type :=
  | key_maxAverageResponseTime
  | key_maxFailedRequests
  | key_maxTotalTime
  | key_maxRequestTime
  | key_maxPageLoadTime.

#[global] Instance ThresholdKey_eq_dec : EqDecision ThresholdKey.
Proof. solve_decision. Defined.

(** [thresholds[key]] and [thresholds[key] = value] *)
Definition get_threshold (th : PerformanceThresholds) (key : ThresholdKey) : option Qc :=
  match key with
  | key_maxAverageResponseTime => maxAverageResponseTime th
  | key_maxFailedRequests => maxFailedRequests th
  | key_maxTotalTime => maxTotalTime th
  | key_maxRequestTime => maxRequestTime th
  | key_maxPageLoadTime => maxPageLoadTime th
  end.

Definition set_threshold (th : PerformanceThresholds) (key : ThresholdKey)
    (value : Qc) : PerformanceThresholds :=
  {| maxAverageResponseTime :=
       if decide (key = key_maxAverageResponseTime) then Some value
       else maxAverageResponseTime th;
     maxFailedRequests :=
       if decide (key = key_maxFailedRequests) then Some value
       else maxFailedRequests th;
     maxTotalTime :=
       if decide (key = key_maxTotalTime) then Some value else maxTotalTime th;
     maxRequestTime :=
       if decide (key = key_maxRequestTime) then Some value else maxRequestTime th;
     maxPageLoadTime :=
       if decide (key = key_maxPageLoadTime) then Some value
       else maxPageLoadTime th |}.

(** The two private fields of [PerformanceConfigBuilder]; every setter
    returns the builder it has updated. *)
Record PerformanceConfigBuilder : Type := {
  builder_config : PerformanceMonitorConfig;
  builder_thresholds : PerformanceThresholds
}.

Definition new_builder : PerformanceConfigBuilder :=
  {| builder_config := empty_config;
     builder_thresholds :=
       {| maxAverageResponseTime := None; maxFailedRequests := None;
          maxTotalTime := None; maxRequestTime := None;
          maxPageLoadTime := None |} |}.






Definition setThreshold (key : ThresholdKey) (value : Qc)
    (b : PerformanceConfigBuilder) : PerformanceConfigBuilder :=
  {| builder_config := builder_config b;
     builder_thresholds := set_threshold (builder_thresholds b) key value |}.

Definition build (b : PerformanceConfigBuilder)
    : PerformanceMonitorConfig * PerformanceThresholds :=
  (builder_config b, builder_thresholds b).

(** ** ReportUtils.compareReports *)

Record PercentageImprovement : Type := {
  pi_responseTime : string;
  pi_failureRate : string
}.

Record Comparison : Type := {
  averageResponseTimeDiff : Qc;
  totalRequestsDiff : Z;
  failedRequestsDiff : Z;
  percentageImprovement : PercentageImprovement
}.

(** [(a / b * 100).toFixed(2)]. A division by zero gives [NaN] or an
    infinity, which [toFixed] prints by name. *)
Definition percent_toFixed2 (a b : Qc) : string :=
  if bool_decide (b = 0) then
    if bool_decide (a = 0) then "NaN"
    else if bool_decide (0 < a) then "Infinity" else "-Infinity"
  else toFixed2 (a / b * num 100).

Definition compareReports (report1 report2 : PerformanceReport) : Comparison :=
  let s1 := summary report1 in
  let s2 := summary report2 in
  {| averageResponseTimeDiff := averageResponseTime s2 - averageResponseTime s1;
     totalRequestsDiff := Z.of_nat (totalRequests s2) - Z.of_nat (totalRequests s1);
     failedRequestsDiff := Z.of_nat (failedRequests s2) - Z.of_nat (failedRequests s1);
     percentageImprovement :=
       {| pi_responseTime :=
            percent_toFixed2 (averageResponseTime s1 - averageResponseTime s2)
              (averageResponseTime s1);
          pi_failureRate :=
            percent_toFixed2
              (num (Z.of_nat (failedRequests s1) - Z.of_nat (failedRequests s2)))
              (Math_max (num_of_nat (failedRequests s1)) 1) |} |}.

(** ** truncateUrl and calculateTestDuration *)



(** ** PerformanceReporter.getPerformanceBadge

    The [performance] object that [onTestEnd] stores for a test, with the
    two properties the badge reads, and the label of the badge. *)
Record TestPerformance : Type := {
  tp_averageResponseTime : option Qc;
  tp_thresholdViolations : option (list ThresholdViolation)
}.

Inductive Badge : Type :=
  | badge_NA | badge_ISSUES | badge_GOOD | badge_OK | badge_SLOW.

Definition getPerformanceBadge (performance : option TestPerformance) : Badge :=
  match performance with
  | None => badge_NA
  | Some p =>
      let hasViolations :=
        match tp_thresholdViolations p with
        | Some violations => bool_decide (0 < length violations)%nat
        | None => false
        end in
      let below (bound : Qc) :=
        match tp_averageResponseTime p with
        | Some avgTime => bool_decide (avgTime < bound)
        | None => false
        end in
      if hasViolations then badge_ISSUES
      else if below (num 1000) then badge_GOOD
      else if below (num 3000) then badge_OK
      else badge_SLOW
  end.

(** The order of the badges of a test that has no violations, from the
    best to the worst. *)
Definition badge_rank (b : Badge) : nat :=
  match b with
  | badge_GOOD => 0
  | badge_OK => 1
  | badge_SLOW => 2
  | badge_ISSUES => 3
  | badge_NA => 4
  end.

(** ** Example data

    A stand-in for the platform's URL parser on the urls of the examples:
    an absolute [https] url has as its path what follows the host, from
    the first slash up to the query or the fragment; any other string is
    rejected, as a relative url is by [new URL] without a base. *)

Fixpoint until_query (s : string) : string :=
  match s with
  | EmptyString => EmptyString
  | String c s' =>
      if (Ascii.eqb c "?" || Ascii.eqb c "#")%char then EmptyString
      else String c (until_query s')
  end.

Fixpoint from_slash (s : string) : string :=
  match s with
  | EmptyString => "/"
  | String c s' => if Ascii.eqb c "/" then s else from_slash s'
  end.

Definition example_pathname (s : string) : option string :=
  if String.prefix "https://" s
  then Some (until_query (from_slash (substring 8 (String.length s) s)))
  else None.

Definition example_entry (u : string) (t code : Z) (size : option Z)
    (mime : option string) : Entry :=
  {| request := Some {| url := Some u; method := Some "GET" |};
     response := Some {| status := Some (num code);
                         statusText := None;
                         bodySize := num <$> size;
                         content := Some {| mimeType := mime |} |};
     time := Some (num t) |}.

(** The trace of the specification's scenario. *)
Definition scenario_trace : list Entry :=
  [ example_entry "/a.js" 100 200 None None;
    example_entry "/api/x" 200 404 None None;
    example_entry "/img.png" 300 200 None None ].

(** A trace with absolute urls; the third url is not one. *)
Definition api_trace : list Entry :=
  [ example_entry "https://shop.example/api/cart?id=1" 10 200 (Some 512%Z) (Some "application/json");
    example_entry "https://shop.example/api/cart?id=2" 30 200 (Some 0%Z) (Some "application/json");
    example_entry "/api/relative" 5 200 None None;
    example_entry "https://shop.example/api/theme.css" 20 200 (Some 2048%Z) (Some "text/css");
    example_entry "https://shop.example/theme.css" 7 200 (Some (-1)%Z) (Some "text/css") ].

Definition monitor_of (harFile : HarFile)
    (thresholds : option PerformanceThresholds) : Monitor :=
  {| harFile := harFile;
     config_testName := Some "performance-test";
     monitor_customMetrics := {[ "pageLoadTime" := num 2000 ]};
     monitor_thresholds := thresholds |}.

Definition parsed (entries : list Entry) : HarFile :=
  har_parsed {| har_log := Some {| har_entries := Some entries |} |}.

(** [{ maxFailedRequests: 0 }] *)
Definition no_failures_allowed : PerformanceThresholds :=
  {| maxAverageResponseTime := None; maxFailedRequests := Some 0;
     maxTotalTime := None; maxRequestTime := None; maxPageLoadTime := None |}.

(** Four bounds, each below what the scenario trace shows: average 200,
    total time 600, slowest request 300, page load 2000. *)
Definition breached_thresholds : PerformanceThresholds :=
  {| maxAverageResponseTime := Some 0; maxFailedRequests := None;
     maxTotalTime := Some (num 500); maxRequestTime := Some (num 250);
     maxPageLoadTime := Some (num 1000) |}.


(** A trace in which no response has a body size other than 0. *)
Definition unsized_trace : list Entry :=
  [ example_entry "https://shop.example/api/cart" 10 200 (Some 0%Z) None;
    example_entry "https://shop.example/logo.png" 30 200 None None ].

(** The report that [generateReport] assembles for a trace, before the
    thresholds are checked. *)
Definition report_of (entries : list Entry) : PerformanceReport :=
  {| testName := Some "performance-test";
     summary := calculateSummary entries;
     requestTypes := categorizeRequests entries;
     performance :=
       {| slowestRequests := getSlowRequests entries 10;
          perf_failedRequests := getFailedRequests entries;
          largestRequests := getLargestRequests entries 5 |};
     apiMetrics := (getApiMetrics example_pathname entries).1;
     customMetrics := ∅;
     thresholdViolations := None |}.

(** One request that takes six seconds. *)
Definition slow_trace : list Entry :=
  [ example_entry "https://shop.example/api/report" 6000 200 None None ].

(** * Properties *)

(** ** Arithmetic on numbers *)

Lemma Qc_sub_le_0 (a b : Qc) : a - b ≤ 0 ↔ a ≤ b.
Proof.
  rewrite (Qcplus_le_mono_r (a - b) 0 b).
  replace (a - b + b) with a by ring. by rewrite Qcplus_0_l.
Qed.

Ltac by_compute := apply (bool_decide_unpack _); vm_compute; exact I.

Lemma this_num z : (this (num z) == inject_Z z)%Q.
Proof. unfold num. simpl. apply Qred_correct. Qed.

Lemma num_le (a b : Z) : (a ≤ b)%Z → num a ≤ num b.
Proof.
  intros H. unfold Qcle. rewrite !this_num. by rewrite <-Zle_Qle.
Qed.

Lemma num_lt (a b : Z) : (a < b)%Z → num a < num b.
Proof.
  intros H. unfold Qclt. rewrite !this_num. by rewrite <-Zlt_Qlt.
Qed.

Lemma num_of_nat_nonneg n : 0 ≤ num_of_nat n.
Proof. apply (num_le 0). lia. Qed.

Lemma num_of_nat_pos n : (0 < n)%nat → 0 < num_of_nat n.
Proof. intros. apply (num_lt 0). lia. Qed.

(** ** Sorting *)

Section sort_facts.
Context {A : Type} (cmp : A → A → Qc).
Let R : relation A := λ x y, cmp x y ≤ 0.

Lemma sort_insert_Permutation x l : sort_insert cmp x l ≡ₚ x :: l.
Proof.
  induction l as [|y l IH]; simpl; [done|].
  case_bool_decide; [done|]. rewrite IH. apply Permutation_swap.
Qed.

Lemma Array_sort_Permutation l : Array_sort cmp l ≡ₚ l.
Proof.
  induction l as [|x l IH]; simpl; [done|].
  rewrite sort_insert_Permutation. by f_equiv.
Qed.

Lemma length_Array_sort l : length (Array_sort cmp l) = length l.
Proof. by rewrite Array_sort_Permutation. Qed.

Hypothesis R_total : ∀ x y, R x y ∨ R y x.

Lemma HdRel_sort_insert z x l :
  R z x → HdRel R z l → HdRel R z (sort_insert cmp x l).
Proof.
  intros Hzx Hl. destruct l as [|y l]; simpl.
  - by constructor.
  - case_bool_decide; constructor; [done|]. by inversion Hl.
Qed.

Lemma Sorted_sort_insert x l : Sorted R l → Sorted R (sort_insert cmp x l).
Proof.
  induction 1 as [|y l Hl IH Hhd]; simpl.
  - by repeat constructor.
  - case_bool_decide as Hxy.
    + constructor; [by constructor|]. by constructor.
    + constructor; [done|]. apply HdRel_sort_insert; [|done].
      destruct (R_total x y); [done|done].
Qed.

Lemma Sorted_Array_sort l : Sorted R (Array_sort cmp l).
Proof.
  induction l as [|x l IH]; simpl; [constructor|].
  by apply Sorted_sort_insert.
Qed.
End sort_facts.

Lemma Sorted_weaken {A} (R R' : relation A) l :
  (∀ a b, R a b → R' a b) → Sorted R l → Sorted R' l.
Proof.
  intros HR. induction 1 as [|x l Hl IH Hhd]; constructor; [done|].
  destruct Hhd; constructor; auto.
Qed.

Lemma sort_ascending_Permutation values : sort_ascending values ≡ₚ values.
Proof. apply Array_sort_Permutation. Qed.

Lemma Sorted_sort_ascending values : Sorted Qcle (sort_ascending values).
Proof.
  assert (Sorted (λ a b : Qc, a - b ≤ 0) (sort_ascending values)) as H.
  { apply Sorted_Array_sort. intros x y. rewrite !Qc_sub_le_0.
    destruct (Qc_le_total x y); auto. }
  eapply Sorted_weaken, H. intros a b. by rewrite Qc_sub_le_0.
Qed.

(** ** Median *)

Lemma length_sort_ascending values : length (sort_ascending values) = length values.
Proof. apply length_Array_sort. Qed.

Lemma calculateMedian_nonempty values :
  values ≠ [] →
  calculateMedian values =
    let sorted := sort_ascending values in
    let mid := (length values / 2)%nat in
    if bool_decide (length values mod 2 ≠ 0)%nat
    then nth mid sorted 0
    else (nth (mid - 1) sorted 0 + nth mid sorted 0) / num 2.
Proof.
  intros Hne. destruct values as [|x l]; [done|].
  unfold calculateMedian. by rewrite length_sort_ascending.
Qed.

Lemma calculateMedian_indices values :
  values ≠ [] →
  (length values / 2 < length (sort_ascending values))%nat ∧
  (length values mod 2 = 0 → 1 ≤ length values / 2)%nat.
Proof.
  intros Hne. rewrite length_sort_ascending.
  assert (0 < length values)%nat by (destruct values; [done|simpl; lia]).
  split.
  - apply Nat.div_lt; lia.
  - intros Hmod. pose proof (Nat.div_mod_eq (length values) 2). lia.
Qed.

Lemma nth_lookup_lt (l : list Qc) i :
  (i < length l)%nat → l !! i = Some (nth i l 0).
Proof.
  intros Hi. destruct (lookup_lt_is_Some_2 l i Hi) as [v Hv].
  by rewrite nth_lookup, Hv.
Qed.

(** C3. For every list of numbers, [calculateMedian] works on the list
    sorted ascending (a sorted permutation of the input): it returns the
    middle element when the length is odd, the arithmetic mean of the
    two middle elements when the length is even, and 0 for the empty
    list. *)
Theorem calculateMedian_spec (values : list Qc) :
  let sorted := sort_ascending values in
  sorted ≡ₚ values ∧ Sorted Qcle sorted ∧
  (values = [] → calculateMedian values = 0) ∧
  (∀ k, length values = (2 * k + 1)%nat →
        sorted !! k = Some (calculateMedian values)) ∧
  (∀ k, length values = (2 * k + 2)%nat →
        ∃ a b, sorted !! k = Some a ∧ sorted !! S k = Some b ∧
               calculateMedian values = (a + b) / num 2).
Proof.
  intros sorted. split_and!.
  - apply sort_ascending_Permutation.
  - apply Sorted_sort_ascending.
  - by intros ->.
  - intros k Hlen.
    assert (values ≠ []) as Hne by (intros ->; simpl in Hlen; lia).
    rewrite calculateMedian_nonempty by done. cbv zeta.
    replace (length values / 2)%nat with k
      by (rewrite Hlen; apply Nat.div_unique with 1%nat; lia).
    replace (length values mod 2)%nat with 1%nat
      by (rewrite Hlen; apply Nat.mod_unique with k; lia).
    rewrite bool_decide_eq_true_2 by lia.
    apply nth_lookup_lt. unfold sorted. rewrite length_sort_ascending. lia.
  - intros k Hlen.
    assert (values ≠ []) as Hne by (intros ->; simpl in Hlen; lia).
    rewrite calculateMedian_nonempty by done. cbv zeta.
    replace (length values / 2)%nat with (S k)
      by (rewrite Hlen; apply Nat.div_unique with 0%nat; lia).
    replace (length values mod 2)%nat with 0%nat
      by (rewrite Hlen; apply Nat.mod_unique with (S k); lia).
    rewrite bool_decide_eq_false_2 by lia.
    replace (S k - 1)%nat with k by lia.
    exists (nth k (sort_ascending values) 0), (nth (S k) (sort_ascending values) 0).
    split_and!; [| |done];
      apply nth_lookup_lt; rewrite length_sort_ascending; lia.
Qed.

(** ** Percentile *)

Lemma Math_ceil_pos (x : Qc) : 0 < x → (1 ≤ Math_ceil x)%Z.
Proof.
  intros Hx. unfold Math_ceil.
  assert (0 < Qceiling x)%Z; [|lia].
  rewrite Zlt_Qlt. eapply Qlt_le_trans; [|apply Qle_ceiling]. exact Hx.
Qed.

Lemma Math_ceil_le_num (x : Qc) (z : Z) : x ≤ num z → (Math_ceil x ≤ z)%Z.
Proof.
  intros Hx. unfold Math_ceil.
  rewrite <-(Qceiling_Z z). apply Qceiling_resp_le.
  unfold Qcle in Hx. by rewrite this_num in Hx.
Qed.

Lemma percent_rank_le (p n : Qc) : p ≤ num 100 → 0 ≤ n → p / num 100 * n ≤ n.
Proof.
  intros Hp Hn.
  rewrite <-(Qcmult_1_l n) at 2.
  apply Qcmult_le_compat_r; [|done].
  replace 1 with (num 100 / num 100) by (by apply Qc_is_canon).
  apply Qcmult_le_compat_r; [done|]. by_compute.
Qed.

Lemma percent_rank_pos (p n : Qc) : 0 < p → 0 < n → 0 < p / num 100 * n.
Proof.
  intros Hp Hn.
  rewrite <-(Qcmult_0_l n). apply Qcmult_lt_compat_r; [done|].
  rewrite <-(Qcmult_0_l (/ num 100)). apply Qcmult_lt_compat_r; [|done].
  by_compute.
Qed.

Lemma Math_max_l a b : a ≤ Math_max a b.
Proof. unfold Math_max. case_bool_decide; [done|apply Qcle_refl]. Qed.

Lemma Math_max_r a b : b ≤ Math_max a b.
Proof.
  unfold Math_max. case_bool_decide as H; [apply Qcle_refl|].
  apply Qclt_le_weak. by apply Qclt_nge.
Qed.

Lemma Math_max_cases a b : Math_max a b = a ∨ Math_max a b = b.
Proof. unfold Math_max. case_bool_decide; auto. Qed.

Lemma foldl_Math_max l x :
  (foldl Math_max x l = x ∨ foldl Math_max x l ∈ l) ∧
  x ≤ foldl Math_max x l ∧
  Forall (λ y, y ≤ foldl Math_max x l) l.
Proof.
  revert x. induction l as [|y l IH]; intros x; simpl.
  - split_and!; [by left|apply Qcle_refl|constructor].
  - destruct (IH (Math_max x y)) as (Hin & Hle & Hall). split_and!.
    + destruct Hin as [->|Hin].
      * destruct (Math_max_cases x y) as [->| ->]; [by left|right; left].
      * right. by right.
    + etrans; [apply Math_max_l|exact Hle].
    + constructor; [|done]. etrans; [apply Math_max_r|exact Hle].
Qed.


Lemma maximum_upper_bound l x : x ∈ l → x ≤ maximum l.
Proof.
  destruct l as [|y l]; [by intros ?%elem_of_nil|]. simpl.
  destruct (foldl_Math_max l y) as (_ & Hle & Hall).
  intros [->|Hin]%elem_of_cons; [done|].
  by eapply Forall_forall in Hall.
Qed.



(** The index computed by [calculatePercentile] for a list that is not
    empty and a percentile in (0, 100] is a valid position. *)
Lemma percentile_rank_bounds (n : nat) (p : Qc) :
  (0 < n)%nat → 0 < p → p ≤ num 100 →
  (1 ≤ Math_ceil (p / num 100 * num_of_nat n) ≤ Z.of_nat n)%Z.
Proof.
  intros Hn Hp Hp'. split.
  - apply Math_ceil_pos, percent_rank_pos; [done|by apply num_of_nat_pos].
  - apply Math_ceil_le_num, percent_rank_le; [done|apply num_of_nat_nonneg].
Qed.

Lemma calculatePercentile_nonempty values p :
  values ≠ [] →
  calculatePercentile values p =
    sort_ascending values !!
      Z.to_nat (Z.max 0 (Math_ceil (p / num 100 * num_of_nat (length values)) - 1)).
Proof.
  intros Hne. destruct values as [|x l]; [done|].
  unfold calculatePercentile. by rewrite length_sort_ascending.
Qed.


(** ** Categorization *)

Lemma category_key_inj c c' : category_key c = category_key c' → c = c'.
Proof. by destruct c, c'. Qed.




Lemma initial_categories_lookup c :
  initial_categories !! category_key c = Some zero_metrics.
Proof. by destruct c. Qed.

Lemma initial_categories_all_keys : all_keys initial_categories.
Proof. intros c. rewrite initial_categories_lookup. by eexists. Qed.

Lemma total_count_initial : total_count initial_categories = 0%nat.
Proof. reflexivity. Qed.

Lemma category_count_categorize_entry categories entry c :
  all_keys categories →
  category_count (categorize_entry categories entry) c =
    if decide (c = category_of entry) then S (category_count categories c)
    else category_count categories c.
Proof.
  intros Hkeys. unfold category_count, categorize_entry.
  case_decide as Hc.
  - subst c. rewrite lookup_alter_eq.
    by destruct (Hkeys (category_of entry)) as [m ->].
  - rewrite lookup_alter_ne; [done|]. by intros ?%category_key_inj.
Qed.

Lemma categorize_entry_all_keys categories entry :
  all_keys categories → all_keys (categorize_entry categories entry).
Proof.
  intros Hkeys c. unfold categorize_entry. rewrite lookup_alter_is_Some. apply Hkeys.
Qed.

Lemma total_count_categorize_entry categories entry :
  all_keys categories →
  total_count (categorize_entry categories entry) = S (total_count categories).
Proof.
  intros Hkeys. unfold total_count, all_categories. simpl.
  rewrite !category_count_categorize_entry by done.
  destruct (category_of entry); simpl; lia.
Qed.

Lemma total_count_foldl entries categories :
  all_keys categories →
  total_count (foldl categorize_entry categories entries)
  = (total_count categories + length entries)%nat ∧
  all_keys (foldl categorize_entry categories entries).
Proof.
  revert categories. induction entries as [|e entries IH]; intros categories Hkeys; simpl.
  - split; [lia|done].
  - destruct (IH (categorize_entry categories e)) as [-> Hk].
    { by apply categorize_entry_all_keys. }
    rewrite total_count_categorize_entry by done. split; [lia|done].
Qed.

Lemma count_set_averageTime m : count (set_averageTime m) = count m.
Proof. unfold set_averageTime. by case_bool_decide. Qed.

Lemma category_count_fmap_set_averageTime categories c :
  category_count (set_averageTime <$> categories) c = category_count categories c.
Proof.
  unfold category_count. rewrite lookup_fmap.
  destruct (categories !! category_key c); simpl; [apply count_set_averageTime|done].
Qed.

Lemma total_count_fmap_set_averageTime categories :
  total_count (set_averageTime <$> categories) = total_count categories.
Proof.
  unfold total_count. f_equal. apply list_fmap_ext.
  intros _ c _. apply category_count_fmap_set_averageTime.
Qed.

Lemma totalRequests_calculateSummary entries :
  totalRequests (calculateSummary entries) = length entries.
Proof. by destruct entries. Qed.

Lemma total_count_categorizeRequests entries :
  total_count (categorizeRequests entries) = length entries.
Proof.
  destruct entries as [|e entries]; [done|].
  unfold categorizeRequests. rewrite total_count_fmap_set_averageTime.
  destruct (total_count_foldl (e :: entries) initial_categories) as [-> _].
  - apply initial_categories_all_keys.
  - by rewrite total_count_initial.
Qed.

Lemma dom_categorizeRequests entries :
  dom (categorizeRequests entries) = list_to_set (category_key <$> all_categories).
Proof.
  assert (∀ es cats, dom (foldl categorize_entry cats es) = dom cats) as Hdom.
  { induction es as [|e es IH]; intros cats; simpl; [done|].
    rewrite IH. unfold categorize_entry. apply dom_alter_L. }
  destruct entries as [|e entries]; unfold categorizeRequests.
  - by_compute.
  - rewrite dom_fmap_L, Hdom. by_compute.
Qed.

(** C5. For every trace, the [count]s of the seven categories (the
    only properties of [requestTypes]) add up to
    [summary.totalRequests], which is the number of entries. *)
Theorem category_counts_sum_to_totalRequests (entries : list Entry) :
  total_count (categorizeRequests entries)
    = totalRequests (calculateSummary entries) ∧
  totalRequests (calculateSummary entries) = length entries ∧
  dom (categorizeRequests entries) = list_to_set (category_key <$> all_categories).
Proof.
  rewrite totalRequests_calculateSummary. split_and!; [|done|].
  - apply total_count_categorizeRequests.
  - apply dom_categorizeRequests.
Qed.

(** ** Endpoint metrics *)


Lemma Math_min_le_r a b : Math_min a b ≤ b.
Proof.
  unfold Math_min. case_bool_decide; [done|apply Qcle_refl].
Qed.

Lemma endpoint_bounds_new : endpoint_bounds new_endpoint.
Proof. split; by_compute. Qed.

Lemma endpoint_sampled_add_sample t m :
  0 ≤ t → endpoint_bounds m → endpoint_sampled (add_sample t m).
Proof.
  intros Ht [Htot Hmax]. unfold endpoint_sampled, endpoint_bounds. simpl.
  split_and!.
  - lia.
  - destruct (minTime m) as [q|]; simpl.
    + etrans; [apply Math_min_le_r|apply Math_max_r].
    + apply Math_max_r.
  - by apply Qcplus_nonneg_nonneg.
  - destruct (Math_max_cases (maxTime m) t) as [-> | ->].
    + rewrite <-(Qcplus_0_r (maxTime m)). by apply Qcplus_le_compat.
    + rewrite <-(Qcplus_0_l t) at 1. apply Qcplus_le_compat; [done|apply Qcle_refl].
Qed.

Lemma endpoint_sampled_set_averageTime m :
  endpoint_sampled m → endpoint_sampled (set_ep_averageTime m).
Proof. unfold set_ep_averageTime. by case_bool_decide. Qed.

Section api_metrics.
Variable URL_pathname : string → option string.

Lemma record_call_unparsable endpoints log call :
  ¬ url_parses URL_pathname call →
  record_call URL_pathname (endpoints, log) call
  = (endpoints, log ++ [invalid_url_warning call]).
Proof.
  unfold url_parses, record_call. destruct (request call) as [req|]; [|done].
  destruct (URL_pathname _); [|done].
  intros []. apply bool_decide_pack. by eexists.
Qed.



Lemma foldl_record_call_log calls endpoints log :
  (foldl (record_call URL_pathname) (endpoints, log) calls).2
  = log ++ (invalid_url_warning <$>
              filter (λ e, ¬ url_parses URL_pathname e) calls).
Proof.
  revert endpoints log.
  induction calls as [|call calls IH]; intros endpoints log.
  - simpl. by rewrite app_nil_r.
  - rewrite filter_cons. cbn [foldl]. case_decide as Hp.
    + rewrite record_call_unparsable by done. rewrite IH.
      by rewrite fmap_cons, <-app_assoc.
    + assert (record_call URL_pathname (endpoints, log) call
              = ((record_call URL_pathname (endpoints, log) call).1, log)) as ->.
      { unfold url_parses, record_call in *.
        destruct (request call) as [req|]; [|by destruct Hp].
        by destruct (URL_pathname _). }
      apply IH.
Qed.

Lemma getApiMetrics_unfold entries :
  getApiMetrics URL_pathname entries =
    let apiCalls := filter (λ e, is_api_call e) entries in
    let result := foldl (record_call URL_pathname) (∅, []) apiCalls in
    ({| totalCalls := length apiCalls;
        endpoints := set_ep_averageTime <$> result.1 |}, result.2).
Proof.
  unfold getApiMetrics. destruct entries as [|e entries].
  { simpl. by rewrite fmap_empty. }
  destruct (filter _ (e :: entries)) as [|c calls].
  { simpl. by rewrite fmap_empty. }
  cbv zeta. by destruct (foldl _ _ _).
Qed.


Lemma record_call_sampled endpoints log call :
  0 ≤ entry_time call →
  map_Forall (λ _, endpoint_sampled) endpoints →
  map_Forall (λ _, endpoint_sampled) (record_call URL_pathname (endpoints, log) call).1.
Proof.
  intros Ht Hall. unfold record_call.
  destruct (request call) as [req|]; [|done].
  destruct (URL_pathname _) as [pathname|]; [|done]. simpl.
  apply map_Forall_insert_2; [|done].
  apply endpoint_sampled_add_sample; [done|].
  destruct (endpoints !! _) as [m|] eqn:Hm; simpl.
  - by destruct (Hall _ _ Hm) as (_ & _ & ?).
  - apply endpoint_bounds_new.
Qed.

Lemma foldl_record_call_sampled calls endpoints log :
  Forall (λ e, 0 ≤ entry_time e) calls →
  map_Forall (λ _, endpoint_sampled) endpoints →
  map_Forall (λ _, endpoint_sampled)
    (foldl (record_call URL_pathname) (endpoints, log) calls).1.
Proof.
  intros Hcalls. revert endpoints log.
  induction Hcalls as [|call calls Ht _ IH]; intros endpoints log Hall; [done|].
  cbn [foldl]. pose proof (record_call_sampled endpoints log call Ht Hall) as Hs.
  destruct (record_call URL_pathname (endpoints, log) call) as [e1 l1].
  by apply IH.
Qed.

(** C9. [minTime] of a new endpoint record is [Infinity]; for a trace
    whose times are not negative, every record in the [endpoints] map has
    [count > 0] and [minTime <= maxTime <= totalTime]. *)
Theorem endpoint_metrics_ordered (entries : list Entry) :
  Forall (λ e, 0 ≤ entry_time e) entries →
  minTime new_endpoint = Infinity ∧
  ∀ key m,
    endpoints (getApiMetrics URL_pathname entries).1 !! key = Some m →
    (0 < ep_count m)%nat ∧
    ext_le (minTime m) (maxTime m) ∧
    maxTime m ≤ ep_totalTime m.
Proof.
  intros Hentries. split; [done|]. intros key m.
  rewrite getApiMetrics_unfold. cbv zeta. simpl.
  intros (m' & <- & Hm')%lookup_fmap_Some.
  assert (endpoint_sampled m') as Hs.
  { eapply (foldl_record_call_sampled _ ∅ []); [|apply map_Forall_empty|exact Hm'].
    rewrite Forall_forall in Hentries |- *.
    intros e [_ He]%list_elem_of_filter. by apply Hentries. }
  apply endpoint_sampled_set_averageTime in Hs.
  by destruct Hs as (? & ? & _ & ?).
Qed.

End api_metrics.

(** ** Largest requests *)

Lemma Sorted_take {A} (R : relation A) n l : Sorted R l → Sorted R (take n l).
Proof.
  intros Hs. revert n. induction Hs as [|x l Hl IH Hhd]; intros [|n]; simpl;
    try constructor; [apply IH|].
  destruct Hhd; destruct n; simpl; by constructor.
Qed.

Lemma getLargestRequests_unfold entries limit :
  getLargestRequests entries limit =
    large_request_info
    <$> take limit
          (Array_sort (λ a b, entry_size b - entry_size a)
             (filter (λ e, truthy (entry_bodySize e)) entries)).
Proof. destruct entries; [by destruct limit|done]. Qed.

Lemma truthy_spec x : truthy x ↔ ∃ q, x = Some q ∧ q ≠ 0.
Proof.
  destruct x as [q|]; simpl.
  - rewrite bool_decide_spec. split; [by exists q|]. by intros (? & [= <-] & ?).
  - split; [done|]. by intros (? & ? & ?).
Qed.

Lemma Sorted_getLargestRequests entries limit :
  Sorted (λ a b, lr_size b ≤ lr_size a) (getLargestRequests entries limit).
Proof.
  rewrite getLargestRequests_unfold.
  eapply Sorted_fmap, Sorted_take, Sorted_Array_sort.
  - intros x y Hxy. simpl. apply Qc_sub_le_0. exact Hxy.
  - intros x y. simpl. rewrite !Qc_sub_le_0.
    destruct (Qc_le_total (entry_size x) (entry_size y)); auto.
Qed.

Lemma getLargestRequests_elem_of entries limit info :
  info ∈ getLargestRequests entries limit →
  ∃ e, e ∈ entries ∧ info = large_request_info e ∧
       ∃ size, entry_bodySize e = Some size ∧ size ≠ 0.
Proof.
  rewrite getLargestRequests_unfold.
  intros (e & -> & He)%list_elem_of_fmap.
  apply elem_of_take in He as (i & He & _).
  apply list_elem_of_lookup_2 in He.
  rewrite Array_sort_Permutation in He.
  apply list_elem_of_filter in He as [Ht He].
  exists e. split_and!; [done..|]. by apply truthy_spec.
Qed.

Lemma getLargestRequests_length entries limit :
  (length (getLargestRequests entries limit) ≤ limit)%nat.
Proof.
  rewrite getLargestRequests_unfold, length_fmap, length_take. lia.
Qed.

Lemma getLargestRequests_no_sizes entries limit :
  Forall (λ e, entry_bodySize e = None ∨ entry_bodySize e = Some 0) entries →
  getLargestRequests entries limit = [].
Proof.
  intros Hall. rewrite getLargestRequests_unfold.
  assert (filter (λ e, truthy (entry_bodySize e)) entries = []) as ->; [|by destruct limit].
  induction Hall as [|e entries He _ IH]; [done|].
  rewrite filter_cons_False; [done|].
  rewrite truthy_spec. intros (q & Hq & Hne). destruct He; congruence.
Qed.

(** ** The assembled report *)

Section report.
Variable URL_pathname : string → option string.

Lemma generateReport_Some this report log :
  generateReport URL_pathname this = (Some report, log) →
  let entries := trace_entries this in
  entries ≠ [] ∧
  testName report = config_testName this ∧
  summary report = calculateSummary entries ∧
  requestTypes report = categorizeRequests entries ∧
  slowestRequests (performance report) = getSlowRequests entries 10 ∧
  perf_failedRequests (performance report) = getFailedRequests entries ∧
  largestRequests (performance report) = getLargestRequests entries 5 ∧
  (apiMetrics report, log) = getApiMetrics URL_pathname entries ∧
  customMetrics report = monitor_customMetrics this.
Proof.
  unfold generateReport, trace_entries.
  destruct (harFile this) as [| |harData]; [done..|].
  destruct (default [] _) as [|e entries] eqn:Hentries; [done|].
  destruct (getApiMetrics _ _) as [api log'].
  destruct (monitor_thresholds this); intros [= <- <-]; by split_and!.
Qed.

Lemma generateReport_None this :
  trace_entries this = [] →
  (generateReport URL_pathname this).1 = None.
Proof.
  unfold generateReport, trace_entries.
  destruct (harFile this) as [| |harData]; [done..|]. by intros ->.
Qed.

(** C10. In a report, [performance.largestRequests] is made from the
    entries whose response [bodySize] is present and not zero, sorted by
    decreasing size and cut to five; when every entry of the trace has
    [bodySize] 0 or none, the list is empty while the entries are still
    counted by the summary and the categories. *)
Theorem largestRequests_spec (this : Monitor) (report : PerformanceReport)
    (log : list LogLine) :
  generateReport URL_pathname this = (Some report, log) →
  let entries := trace_entries this in
  let largest := largestRequests (performance report) in
  largest = large_request_info
            <$> take 5 (Array_sort (λ a b, entry_size b - entry_size a)
                          (filter (λ e, truthy (entry_bodySize e)) entries)) ∧
  (∀ info, info ∈ largest →
     ∃ e, e ∈ entries ∧ info = large_request_info e ∧
          ∃ size, entry_bodySize e = Some size ∧ size ≠ 0) ∧
  Sorted (λ a b, lr_size b ≤ lr_size a) largest ∧
  (length largest ≤ 5)%nat ∧
  (Forall (λ e, entry_bodySize e = None ∨ entry_bodySize e = Some 0) entries →
     largest = [] ∧
     entries ≠ [] ∧
     totalRequests (summary report) = length entries ∧
     total_count (requestTypes report) = length entries).
Proof.
  intros (Hne & _ & Hsum & Htypes & _ & _ & Hlargest & _)%generateReport_Some
    entries largest.
  unfold largest. rewrite Hlargest. fold entries. split_and!.
  - apply getLargestRequests_unfold.
  - apply getLargestRequests_elem_of.
  - apply Sorted_getLargestRequests.
  - apply getLargestRequests_length.
  - intros Hall. split_and!.
    + by apply getLargestRequests_no_sizes.
    + done.
    + rewrite Hsum. apply totalRequests_calculateSummary.
    + rewrite Htypes. apply total_count_categorizeRequests.
Qed.

(** C6, as amended. For a trace that parses but has no entries,
    [generateReport] returns [null] and logs a warning; for bytes that do
    not parse it returns the same [null] and logs an error. A report
    that is returned never has [totalRequests = 0]. *)
Theorem generateReport_empty_trace (this : Monitor) :
  (∀ harData,
     harFile this = har_parsed harData →
     default [] (har_log harData ≫= har_entries) = [] →
     generateReport URL_pathname this
     = (None, [console_warn "No entries found in HAR file"])) ∧
  (harFile this = har_unparsable →
     generateReport URL_pathname this
     = (None, [console_error "Failed to parse HAR file"])) ∧
  (∀ report log,
     generateReport URL_pathname this = (Some report, log) →
     (0 < totalRequests (summary report))%nat).
Proof.
  split_and!.
  - intros harData Hfile Hentries. unfold generateReport. by rewrite Hfile, Hentries.
  - intros Hfile. unfold generateReport. by rewrite Hfile.
  - intros report log (Hne & _ & -> & _)%generateReport_Some.
    rewrite totalRequests_calculateSummary.
    destruct (trace_entries this); [done|simpl; lia].
Qed.

End report.

Lemma checkThresholds_checked_bounds_only th report :
  checkThresholds (Some th) report
  = checkThresholds (Some (checked_bounds_only th)) report.
Proof. reflexivity. Qed.

(** ** Aggregation of reports *)






(** ** toFixed(2) *)

Lemma decimal_digit_length d :
  (0 ≤ d < 10)%Z → String.length (decimal d) = 1%nat.
Proof.
  intros Hd.
  assert (d = 0 ∨ d = 1 ∨ d = 2 ∨ d = 3 ∨ d = 4 ∨ d = 5 ∨ d = 6 ∨ d = 7 ∨
          d = 8 ∨ d = 9)%Z as Hcases by lia.
  repeat destruct Hcases as [->|Hcases]; try reflexivity. by subst.
Qed.

Lemma two_digits_length k :
  (0 ≤ k < 100)%Z → String.length (two_digits k) = 2%nat.
Proof.
  intros Hk. unfold two_digits.
  assert (0 ≤ k / 10 < 10)%Z as Hq by (split; [apply Z.div_pos; lia|apply Z.div_lt_upper_bound; lia]).
  assert (0 ≤ k mod 10 < 10)%Z as Hr by (apply Z.mod_pos_bound; lia).
  pose proof (decimal_digit_length _ Hq) as H1.
  pose proof (decimal_digit_length _ Hr) as H2.
  destruct (decimal (k / 10)) as [|c1 [|? ?]]; try done.
  by destruct (decimal (k mod 10)) as [|c2 [|? ?]].
Qed.

Lemma toFixed2_nearest (x : Qc) :
  0 ≤ x →
  let n := Math_floor (x * num 100 + 1 / num 2) in
  (0 ≤ n)%Z ∧
  num n - 1 / num 2 ≤ x * num 100 ∧
  x * num 100 < num n + 1 / num 2 ∧
  toFixed2 x = decimal (n / 100) +:+ "." +:+ two_digits (n mod 100) ∧
  String.length (two_digits (n mod 100)) = 2%nat.
Proof.
  intros Hx n.
  assert (0 ≤ x * num 100) as Hx100.
  { rewrite <-(Qcmult_0_l (num 100)). apply Qcmult_le_compat_r; [done|by_compute]. }
  pose proof (Qfloor_le (this (x * num 100 + 1 / num 2)%Qc)) as Hlo.
  pose proof (Qlt_floor (this (x * num 100 + 1 / num 2)%Qc)) as Hhi.
  fold (Math_floor (x * num 100 + 1 / num 2)) in Hlo, Hhi. fold n in Hlo, Hhi.
  assert (this (x * num 100 + 1 / num 2)%Qc == this (x * num 100)%Qc + (1 # 2))%Q
    as Hhalf.
  { change (this (x * num 100 + 1 / num 2)%Qc)
      with (Qred (this (x * num 100)%Qc + this (1 / num 2)%Qc)).
    by rewrite Qred_correct. }
  rewrite Hhalf in Hlo, Hhi. rewrite inject_Z_plus in Hhi.
  split_and!.
  - assert (0 ≤ x * num 100 + 1 / num 2) as Hy
      by (apply Qcplus_nonneg_nonneg; [done|by_compute]).
    apply Qfloor_resp_le in Hy. exact Hy.
  - unfold Qcle.
    change (this (num n - 1 / num 2)%Qc)
      with (Qred (this (num n) + this (- (1 / num 2))%Qc)).
    rewrite Qred_correct, this_num.
    change (this (- (1 / num 2))%Qc) with (- (1 # 2))%Q. lra.
  - unfold Qclt.
    change (this (num n + 1 / num 2)%Qc)
      with (Qred (this (num n) + this (1 / num 2)%Qc)).
    rewrite Qred_correct, this_num.
    change (this (1 / num 2)%Qc) with (1 # 2)%Q.
    change (inject_Z 1) with 1%Q in Hhi. lra.
  - unfold toFixed2. rewrite bool_decide_eq_false_2 by by apply Qcle_not_lt.
    done.
  - apply two_digits_length, Z.mod_pos_bound. lia.
Qed.

(** ** Threshold evaluation *)

Lemma checkThresholds_spec th report :
  checkThresholds (Some th) report =
    (match maxAverageResponseTime th with
     | Some bound =>
         if bool_decide (bound ≠ 0 ∧ bound < averageResponseTime (summary report))
         then [{| metric := "averageResponseTime";
                  threshold := bound;
                  actual := averageResponseTime (summary report);
                  message := "Average response time exceeded threshold" |}]
         else []
     | None => []
     end) ++
    (match maxFailedRequests th with
     | Some bound =>
         if bool_decide (bound < num_of_nat (failedRequests (summary report)))
         then [{| metric := "failedRequests";
                  threshold := bound;
                  actual := num_of_nat (failedRequests (summary report));
                  message := "Failed requests exceeded threshold" |}]
         else []
     | None => []
     end).
Proof.
  unfold checkThresholds, truthy, gt, or0.
  destruct (maxAverageResponseTime th) as [a|], (maxFailedRequests th) as [f|];
    simpl; repeat case_bool_decide; simpl; try done; try tauto;
    try (by rewrite app_nil_r).
Qed.

Example checkThresholds_scenario :
  ∃ report log,
    generateReport example_pathname
      (monitor_of (parsed scenario_trace) (Some no_failures_allowed))
    = (Some report, log) ∧
    thresholdViolations report
    = Some [{| metric := "failedRequests"; threshold := 0; actual := num 1;
               message := "Failed requests exceeded threshold" |}].
Proof.
  destruct (generateReport _ _) as [[report|] log] eqn:E;
    [|vm_compute in E; discriminate].
  exists report, log. split; [done|].
  vm_compute in E. by injection E as <- <-.
Qed.

(** C1, evaluated on the code. [checkThresholds] never reads
    [maxTotalTime], [maxRequestTime] and [maxPageLoadTime], and skips
    [maxAverageResponseTime] when it is 0: for the scenario trace
    (average 200, total 600, slowest request 300, page load 2000) and
    the bounds 0, 500, 250 and 1000 it finds no violation. *)
Theorem checkThresholds_unchecked_bounds :
  (∀ th report,
     checkThresholds (Some th) report
     = checkThresholds (Some (checked_bounds_only th)) report) ∧
  ∃ report log,
    generateReport example_pathname
      (monitor_of (parsed scenario_trace) (Some breached_thresholds))
    = (Some report, log) ∧
    averageResponseTime (summary report) = num 200 ∧
    totalTime (summary report) = num 600 ∧
    ri_time <$> slowestRequests (performance report) = [num 300; num 200; num 100] ∧
    customMetrics report !! "pageLoadTime" = Some (num 2000) ∧
    thresholdViolations report = Some [].
Proof.
  split; [done|].
  destruct (generateReport _ _) as [[report|] log] eqn:E;
    [|vm_compute in E; discriminate].
  exists report, log. split; [done|].
  vm_compute in E. injection E as <- <-.
  split_and!; first [reflexivity|by_compute].
Qed.

(** ** Examples and instances *)

Lemma calculateMedian_spec_witness :
  calculateMedian [] = 0 ∧
  sort_ascending [num 3; num 1; num 2] !! 1%nat
    = Some (calculateMedian [num 3; num 1; num 2]) ∧
  ∃ a b, sort_ascending [num 4; num 1; num 3; num 2] !! 1%nat = Some a ∧
         sort_ascending [num 4; num 1; num 3; num 2] !! 2%nat = Some b ∧
         calculateMedian [num 4; num 1; num 3; num 2] = (a + b) / num 2.
Proof.
  split_and!.
  - apply (calculateMedian_spec []). reflexivity.
  - apply (calculateMedian_spec [num 3; num 1; num 2]). reflexivity.
  - apply (calculateMedian_spec [num 4; num 1; num 3; num 2]). reflexivity.
Defined.

Example calculateMedian_odd : calculateMedian [num 3; num 1; num 2] = num 2.
Proof. by_compute. Qed.

Example calculateMedian_even :
  calculateMedian [num 4; num 1; num 3; num 2] = Q2Qc (5 # 2).
Proof. by_compute. Qed.


Example calculatePercentile_p50 :
  calculatePercentile [num 30; num 10; num 20; num 40] (num 50) = Some (num 20).
Proof. by_compute. Qed.

Example calculatePercentile_p95 :
  calculatePercentile [num 30; num 10; num 20; num 40] (num 95) = Some (num 40).
Proof. by_compute. Qed.

Example calculatePercentile_above_100 :
  calculatePercentile [num 30; num 10; num 20; num 40] (num 101) = None.
Proof. by_compute. Qed.


Example category_of_css_outside_api :
  category_of (example_entry "https://shop.example/theme.CSS" 7 200 None None) = css.
Proof. reflexivity. Qed.

Example scenario_summary :
  let s := calculateSummary scenario_trace in
  totalRequests s = 3%nat ∧ failedRequests s = 1%nat ∧
  averageResponseTime s = num 200 ∧ medianResponseTime s = num 200 ∧
  category_count (categorizeRequests scenario_trace) <$> all_categories
  = [1; 1; 0; 1; 0; 0; 0]%nat.
Proof. split_and!; by_compute. Qed.

Lemma generateReport_empty_trace_witness :
  generateReport example_pathname (monitor_of (parsed []) None)
  = (None, [console_warn "No entries found in HAR file"]) ∧
  generateReport example_pathname (monitor_of har_unparsable None)
  = (None, [console_error "Failed to parse HAR file"]).
Proof.
  destruct (generateReport_empty_trace example_pathname (monitor_of (parsed []) None))
    as (Hempty & _ & _).
  destruct (generateReport_empty_trace example_pathname (monitor_of har_unparsable None))
    as (_ & Hbad & _).
  split.
  - apply (Hempty _ eq_refl). reflexivity.
  - apply Hbad. reflexivity.
Defined.

(** C6, counterexample. The caller gets the same value for a trace
    without entries as for bytes that do not parse. *)
Lemma empty_trace_result_is_the_failure_result :
  (generateReport example_pathname (monitor_of (parsed []) None)).1
  = (generateReport example_pathname (monitor_of har_unparsable None)).1.
Proof. reflexivity. Qed.


Lemma endpoint_metrics_ordered_witness :
  Forall (λ e, 0 ≤ entry_time e) api_trace ∧
  ∃ m, endpoints (getApiMetrics example_pathname api_trace).1 !! "GET /api/cart"
       = Some m ∧
       (0 < ep_count m)%nat ∧ ext_le (minTime m) (maxTime m) ∧
       maxTime m ≤ ep_totalTime m.
Proof.
  assert (Forall (λ e, 0 ≤ entry_time e) api_trace) as Hall by by_compute.
  split; [done|].
  destruct (endpoints (getApiMetrics example_pathname api_trace).1 !! "GET /api/cart")
    as [m|] eqn:Hm; [|vm_compute in Hm; discriminate].
  exists m. split; [done|].
  destruct (endpoint_metrics_ordered example_pathname api_trace Hall) as [_ H].
  by apply (H "GET /api/cart").
Defined.

Example getApiMetrics_example :
  let result := getApiMetrics example_pathname api_trace in
  totalCalls result.1 = 4%nat ∧
  dom (endpoints result.1) = {[ "GET /api/cart"; "GET /api/theme.css" ]} ∧
  result.2 = [console_warn "Invalid URL in API metrics: /api/relative"].
Proof. split_and!; [reflexivity|by_compute|reflexivity]. Qed.

Lemma largestRequests_spec_witness :
  Forall (λ e, entry_bodySize e = None ∨ entry_bodySize e = Some 0) unsized_trace ∧
  ∃ report,
    (generateReport example_pathname (monitor_of (parsed unsized_trace) None)).1
    = Some report ∧
    largestRequests (performance report) = [] ∧
    totalRequests (summary report) = 2%nat ∧
    total_count (requestTypes report) = 2%nat.
Proof.
  assert (Forall (λ e, entry_bodySize e = None ∨ entry_bodySize e = Some 0)
            unsized_trace) as Hall by by_compute.
  split; [done|].
  destruct (generateReport example_pathname (monitor_of (parsed unsized_trace) None))
    as [[report|] log] eqn:E; [|vm_compute in E; discriminate].
  exists report. split; [done|].
  destruct (largestRequests_spec example_pathname _ _ _ E) as (_ & _ & _ & _ & H).
  destruct (H Hall) as (? & ? & ? & ?). by split_and!.
Defined.

Example largestRequests_example :
  ∃ report,
    (generateReport example_pathname (monitor_of (parsed api_trace) None)).1
    = Some report ∧
    (λ l, (lr_url l, lr_size l)) <$> largestRequests (performance report)
    = [ ("https://shop.example/api/theme.css", num 2048);
        ("https://shop.example/api/cart?id=1", num 512);
        ("https://shop.example/theme.css", num (-1)) ].
Proof.
  destruct (generateReport example_pathname (monitor_of (parsed api_trace) None))
    as [[report|] log] eqn:E; [|vm_compute in E; discriminate].
  exists report. split; [done|].
  vm_compute in E. injection E as <- <-. by_compute.
Qed.

(** * Further properties of the engine *)

(** ** Monotonicity and order independence of the statistics *)

Lemma Math_ceil_mono (x y : Qc) : x ≤ y → (Math_ceil x ≤ Math_ceil y)%Z.
Proof. intros H. unfold Math_ceil. by apply Qceiling_resp_le. Qed.

Lemma percent_rank_mono (p q n : Qc) :
  p ≤ q → 0 ≤ n → p / num 100 * n ≤ q / num 100 * n.
Proof.
  intros Hpq Hn. apply Qcmult_le_compat_r; [|done].
  apply Qcmult_le_compat_r; [done|by_compute].
Qed.

Lemma StronglySorted_lookup_le (l : list Qc) i j a b :
  StronglySorted Qcle l → (i ≤ j)%nat →
  l !! i = Some a → l !! j = Some b → a ≤ b.
Proof.
  intros Hs. revert i j. induction Hs as [|x l Hs IH Hall]; intros i j Hij Hi Hj.
  - by rewrite lookup_nil in Hi.
  - destruct i as [|i], j as [|j]; simpl in *; try lia.
    + injection Hi as <-. injection Hj as <-. apply Qcle_refl.
    + injection Hi as <-. rewrite Forall_forall in Hall.
      apply Hall. by eapply list_elem_of_lookup_2.
    + eapply IH; [|done..]. lia.
Qed.

Lemma StronglySorted_sort_ascending values :
  StronglySorted Qcle (sort_ascending values).
Proof. apply Sorted_StronglySorted; [apply _|apply Sorted_sort_ascending]. Qed.

Lemma percentile_index_mono (n : nat) (p q : Qc) :
  p ≤ q →
  (Z.to_nat (Z.max 0 (Math_ceil (p / num 100 * num_of_nat n) - 1))
   ≤ Z.to_nat (Z.max 0 (Math_ceil (q / num 100 * num_of_nat n) - 1)))%nat.
Proof.
  intros Hpq.
  pose proof (Math_ceil_mono _ _
    (percent_rank_mono p q (num_of_nat n) Hpq (num_of_nat_nonneg _))).
  lia.
Qed.

(** X1. [calculatePercentile] is monotone in the percentile: on the same
    list, a larger percentile never gives a smaller value. *)
Theorem calculatePercentile_monotone (L : list Qc) (p q vp vq : Qc) :
  p ≤ q →
  calculatePercentile L p = Some vp →
  calculatePercentile L q = Some vq →
  vp ≤ vq.
Proof.
  intros Hpq. destruct (decide (L = [])) as [->|Hne].
  { simpl. intros [= <-] [= <-]. apply Qcle_refl. }
  rewrite !calculatePercentile_nonempty by done. intros Hp Hq.
  eapply StronglySorted_lookup_le; [apply StronglySorted_sort_ascending| |done..].
  by apply percentile_index_mono.
Qed.

Lemma calculatePercentile_monotone_witness :
  num 50 ≤ num 95 ∧
  calculatePercentile [num 30; num 10; num 20; num 40] (num 50) = Some (num 20) ∧
  calculatePercentile [num 30; num 10; num 20; num 40] (num 95) = Some (num 40) ∧
  num 20 ≤ num 40.
Proof.
  assert (num 50 ≤ num 95) as H by by_compute.
  assert (calculatePercentile [num 30; num 10; num 20; num 40] (num 50) = Some (num 20))
    as Hp by by_compute.
  assert (calculatePercentile [num 30; num 10; num 20; num 40] (num 95) = Some (num 40))
    as Hq by by_compute.
  split_and!; [done..|].
  exact (calculatePercentile_monotone _ _ _ _ _ H Hp Hq).
Defined.

Lemma sort_ascending_Permutation_eq (L L' : list Qc) :
  L ≡ₚ L' → sort_ascending L = sort_ascending L'.
Proof.
  intros HL. apply (Sorted_unique Qcle); try apply Sorted_sort_ascending.
  by rewrite !sort_ascending_Permutation.
Qed.

(** X3. [calculateMedian] and [calculatePercentile] do not depend on the
    order of the values. *)
Theorem statistics_order_independent (L L' : list Qc) (p : Qc) :
  L ≡ₚ L' →
  calculateMedian L = calculateMedian L' ∧
  calculatePercentile L p = calculatePercentile L' p.
Proof.
  intros HL. destruct (decide (L = [])) as [->|Hne].
  { by apply Permutation_nil_l in HL as ->. }
  assert (L' ≠ []) as Hne' by (intros ->; by apply Permutation_nil_r in HL).
  rewrite !calculateMedian_nonempty, !calculatePercentile_nonempty by done.
  by rewrite (sort_ascending_Permutation_eq L L' HL), (Permutation_length HL).
Qed.

Lemma statistics_order_independent_witness :
  [num 3; num 1; num 2] ≡ₚ [num 1; num 2; num 3] ∧
  calculateMedian [num 3; num 1; num 2] = calculateMedian [num 1; num 2; num 3] ∧
  calculatePercentile [num 3; num 1; num 2] (num 95)
  = calculatePercentile [num 1; num 2; num 3] (num 95).
Proof.
  assert ([num 3; num 1; num 2] ≡ₚ [num 1; num 2; num 3]) as H.
  { etrans; [apply Permutation_swap|]. apply perm_skip, Permutation_swap. }
  split; [done|]. exact (statistics_order_independent _ _ (num 95) H).
Defined.

(** ** Bounds of the median *)

Lemma this_plus (a b : Qc) : (this (a + b)%Qc == this a + this b)%Q.
Proof. apply Qred_correct. Qed.

Lemma this_mult (a b : Qc) : (this (a * b)%Qc == this a * this b)%Q.
Proof. apply Qred_correct. Qed.

Lemma this_inv (a : Qc) : (this (/ a)%Qc == / this a)%Q.
Proof. apply Qred_correct. Qed.

Lemma this_div (a b : Qc) : (this (a / b)%Qc == this a / this b)%Q.
Proof. unfold Qcdiv. rewrite this_mult, this_inv. reflexivity. Qed.



Lemma mean_le (a b M : Qc) : a ≤ M → b ≤ M → (a + b) / num 2 ≤ M.
Proof.
  unfold Qcle. rewrite this_div, this_plus, this_num. intros Ha Hb.
  apply Qle_shift_div_r; [reflexivity|]. change (inject_Z 2) with 2%Q. lra.
Qed.

Lemma le_mean (a b m : Qc) : m ≤ a → m ≤ b → m ≤ (a + b) / num 2.
Proof.
  unfold Qcle. rewrite this_div, this_plus, this_num. intros Ha Hb.
  apply Qle_shift_div_l; [reflexivity|]. change (inject_Z 2) with 2%Q. lra.
Qed.

Lemma Math_min_l a b : Math_min a b ≤ a.
Proof.
  unfold Math_min. case_bool_decide as H; [apply Qcle_refl|].
  apply Qclt_le_weak. by apply Qclt_nge.
Qed.

Lemma Math_min_cases a b : Math_min a b = a ∨ Math_min a b = b.
Proof. unfold Math_min. case_bool_decide; auto. Qed.

Lemma foldl_Math_min l x :
  (foldl Math_min x l = x ∨ foldl Math_min x l ∈ l) ∧
  foldl Math_min x l ≤ x ∧
  Forall (λ y, foldl Math_min x l ≤ y) l.
Proof.
  revert x. induction l as [|y l IH]; intros x; simpl.
  - split_and!; [by left|apply Qcle_refl|constructor].
  - destruct (IH (Math_min x y)) as (Hin & Hle & Hall). split_and!.
    + destruct Hin as [->|Hin].
      * destruct (Math_min_cases x y) as [->| ->]; [by left|right; left].
      * right. by right.
    + etrans; [exact Hle|apply Math_min_l].
    + constructor; [|done]. etrans; [exact Hle|apply Math_min_le_r].
Qed.

Lemma minimum_elem_of l : l ≠ [] → minimum l ∈ l.
Proof.
  destruct l as [|x l]; [done|]. intros _. simpl.
  destruct (foldl_Math_min l x) as ([->|Hin] & _ & _); [left|by right].
Qed.

Lemma minimum_lower_bound l x : x ∈ l → minimum l ≤ x.
Proof.
  destruct l as [|y l]; [by intros ?%elem_of_nil|]. simpl.
  destruct (foldl_Math_min l y) as (_ & Hle & Hall).
  intros [->|Hin]%elem_of_cons; [done|].
  by eapply Forall_forall in Hall.
Qed.

Lemma sort_ascending_nth_elem_of values i :
  (i < length values)%nat → nth i (sort_ascending values) 0 ∈ values.
Proof.
  intros Hi.
  assert (nth i (sort_ascending values) 0 ∈ sort_ascending values) as Hin.
  { eapply list_elem_of_lookup_2, nth_lookup_lt. by rewrite length_sort_ascending. }
  revert Hin. generalize (nth i (sort_ascending values) 0). intros v Hin.
  by rewrite sort_ascending_Permutation in Hin.
Qed.

Lemma calculateMedian_bounds (values : list Qc) :
  values ≠ [] →
  minimum values ≤ calculateMedian values ∧
  calculateMedian values ≤ maximum values.
Proof.
  intros Hne. rewrite calculateMedian_nonempty by done. cbv zeta.
  destruct (calculateMedian_indices values Hne) as [Hmid _].
  rewrite length_sort_ascending in Hmid.
  assert (length values / 2 - 1 < length values)%nat as Hmid' by lia.
  pose proof (sort_ascending_nth_elem_of values _ Hmid) as H1.
  pose proof (sort_ascending_nth_elem_of values _ Hmid') as H2.
  case_bool_decide.
  - split; [by apply minimum_lower_bound|by apply maximum_upper_bound].
  - split.
    + apply le_mean; by apply minimum_lower_bound.
    + apply mean_le; by apply maximum_upper_bound.
Qed.

(** ** Summary *)




(** The rank of the 95th percentile is past the middle of the list. *)
Lemma percentile95_rank_above_middle (n : nat) :
  (0 < n)%nat →
  (Z.of_nat (n / 2) < Math_ceil (num 95 / num 100 * num_of_nat n))%Z.
Proof.
  intros Hn. unfold Math_ceil.
  rewrite Zlt_Qlt. eapply Qlt_le_trans; [|apply Qle_ceiling].
  rewrite this_mult. change (this (num 95 / num 100)) with (19 # 20)%Q.
  unfold num_of_nat. rewrite this_num.
  assert (inject_Z (Z.of_nat (n / 2)) * 2 <= inject_Z (Z.of_nat n))%Q as Hhalf.
  { change 2%Q with (inject_Z 2). rewrite <-inject_Z_mult, <-Zle_Qle.
    pose proof (Nat.div_mod_eq n 2). lia. }
  assert (0 < inject_Z (Z.of_nat n))%Q as Hpos.
  { change 0%Q with (inject_Z 0). rewrite <-Zlt_Qlt. lia. }
  lra.
Qed.

Lemma calculateMedian_le_middle (values : list Qc) :
  values ≠ [] →
  calculateMedian values ≤ nth (length values / 2) (sort_ascending values) 0.
Proof.
  intros Hne. rewrite calculateMedian_nonempty by done. cbv zeta.
  destruct (calculateMedian_indices values Hne) as [Hmid Hone].
  case_bool_decide as Hodd; [apply Qcle_refl|].
  apply mean_le; [|apply Qcle_refl].
  eapply (StronglySorted_lookup_le _ (length values / 2 - 1) (length values / 2));
    [apply StronglySorted_sort_ascending|lia|apply nth_lookup_lt; lia
    |by apply nth_lookup_lt].
Qed.


(** X5. In the summary of a trace that is not empty, [percentile95] and
    [percentile99] are defined and are times of entries, and
    min <= median <= p95 <= p99 <= max over the times of the trace. *)
Theorem calculateSummary_order_statistics (entries : list Entry) :
  entries ≠ [] →
  let s := calculateSummary entries in
  let times := entry_time <$> entries in
  ∃ p95 p99,
    percentile95 s = Some p95 ∧ percentile99 s = Some p99 ∧
    p95 ∈ times ∧ p99 ∈ times ∧
    minimum times ≤ medianResponseTime s ∧
    medianResponseTime s ≤ p95 ∧ p95 ≤ p99 ∧ p99 ≤ maximum times.
Proof.
  intros Hne s times.
  assert (times ≠ []) as Htimes by (unfold times; by destruct entries).
  assert (0 < length times)%nat as Hlen by (destruct times; [done|simpl; lia]).
  assert (medianResponseTime s = calculateMedian times
          ∧ percentile95 s = calculatePercentile times (num 95)
          ∧ percentile99 s = calculatePercentile times (num 99))
    as (Hmed & H95 & H99) by (unfold s, times; by destruct entries).
  rewrite Hmed, H95, H99.
  assert (∀ p, 0 < p → p ≤ num 100 →
            ∃ v, calculatePercentile times p = Some v ∧ v ∈ times) as Hdef.
  { intros p Hp Hp'. rewrite calculatePercentile_nonempty by done.
    pose proof (percentile_rank_bounds (length times) p Hlen Hp Hp') as Hrank.
    destruct (lookup_lt_is_Some_2 (sort_ascending times)
                (Z.to_nat (Z.max 0 (Math_ceil (p / num 100 * num_of_nat (length times)) - 1))))
      as [v Hv]; [rewrite length_sort_ascending; lia|].
    exists v. split; [done|].
    apply list_elem_of_lookup_2 in Hv. by rewrite sort_ascending_Permutation in Hv. }
  destruct (Hdef (num 95)) as (p95 & Hp95 & Hin95); [by_compute..|].
  destruct (Hdef (num 99)) as (p99 & Hp99 & Hin99); [by_compute..|].
  exists p95, p99. split_and!; try done.
  - by apply calculateMedian_bounds.
  - etrans; [by apply calculateMedian_le_middle|].
    rewrite calculatePercentile_nonempty in Hp95 by done.
    eapply StronglySorted_lookup_le;
      [apply StronglySorted_sort_ascending| |apply nth_lookup_lt|exact Hp95].
    + pose proof (percentile95_rank_above_middle (length times) Hlen). lia.
    + rewrite length_sort_ascending. apply Nat.div_lt; lia.
  - rewrite calculatePercentile_nonempty in Hp95, Hp99 by done.
    eapply StronglySorted_lookup_le;
      [apply StronglySorted_sort_ascending| |exact Hp95|exact Hp99].
    apply percentile_index_mono. by_compute.
  - by apply maximum_upper_bound.
Qed.

(** ** Percentile edge cases and order independence of the summary *)

Lemma minimum_unique l v :
  v ∈ l → (∀ x, x ∈ l → v ≤ x) → minimum l = v.
Proof.
  intros Hin Hlb. apply Qcle_antisym.
  - by apply minimum_lower_bound.
  - apply Hlb, minimum_elem_of. by intros ->; apply elem_of_nil in Hin.
Qed.

Lemma Math_ceil_gt_num (x : Qc) (z : Z) : num z < x → (z < Math_ceil x)%Z.
Proof.
  intros Hx. unfold Math_ceil. rewrite Zlt_Qlt.
  eapply Qlt_le_trans; [|apply Qle_ceiling].
  unfold Qclt in Hx. by rewrite this_num in Hx.
Qed.

Lemma percent_rank_gt (p n : Qc) : num 100 < p → 0 < n → n < p / num 100 * n.
Proof.
  intros Hp Hn. rewrite <-(Qcmult_1_l n) at 1.
  apply Qcmult_lt_compat_r; [done|].
  replace 1 with (num 100 / num 100) by (by apply Qc_is_canon).
  apply Qcmult_lt_compat_r; [by_compute|done].
Qed.

Lemma percent_rank_nonpos (p n : Qc) : p ≤ 0 → 0 ≤ n → p / num 100 * n ≤ 0.
Proof.
  intros Hp Hn. rewrite <-(Qcmult_0_l n).
  apply Qcmult_le_compat_r; [|done].
  rewrite <-(Qcmult_0_l (/ num 100)).
  apply Qcmult_le_compat_r; [done|by_compute].
Qed.

(** X2. [calculatePercentile] is [undefined] exactly for a list that is
    not empty and a percentile above 100; a percentile of 0 or less gives
    the smallest element. *)
Theorem calculatePercentile_defined (L : list Qc) (p : Qc) :
  (calculatePercentile L p = None ↔ L ≠ [] ∧ num 100 < p) ∧
  (L ≠ [] → p ≤ 0 → calculatePercentile L p = Some (minimum L)).
Proof.
  destruct (decide (L = [])) as [->|Hne].
  { split; [|done]. simpl. split; [done|]. by intros [? _]. }
  assert (0 < length L)%nat as Hlen by (destruct L; [done|simpl; lia]).
  rewrite calculatePercentile_nonempty by done. split.
  - rewrite lookup_ge_None, length_sort_ascending. split.
    + intros Hidx. split; [done|]. apply Qclt_nge. intros Hp.
      pose proof (Math_ceil_le_num _ _
        (percent_rank_le p (num_of_nat (length L)) Hp (num_of_nat_nonneg _))).
      lia.
    + intros [_ Hp].
      pose proof (Math_ceil_gt_num _ (Z.of_nat (length L))
        (percent_rank_gt p (num_of_nat (length L)) Hp (num_of_nat_pos _ Hlen))).
      lia.
  - intros _ Hp.
    pose proof (Math_ceil_le_num _ 0
      (percent_rank_nonpos p (num_of_nat (length L)) Hp (num_of_nat_nonneg _))) as Hc.
    replace (Z.to_nat _) with 0%nat by lia.
    destruct (lookup_lt_is_Some_2 (sort_ascending L) 0) as [v Hv];
      [rewrite length_sort_ascending; lia|].
    rewrite Hv. f_equal. symmetry. apply minimum_unique.
    + apply list_elem_of_lookup_2 in Hv. by rewrite sort_ascending_Permutation in Hv.
    + intros x Hx. rewrite <-(sort_ascending_Permutation L) in Hx.
      apply list_elem_of_lookup_1 in Hx as [i Hi].
      eapply (StronglySorted_lookup_le _ 0 i);
        [apply StronglySorted_sort_ascending|lia|done..].
Qed.

Lemma calculatePercentile_defined_witness :
  [num 30; num 10; num 20] ≠ [] ∧ num 100 < num 101 ∧ - num 5 ≤ 0 ∧
  calculatePercentile [num 30; num 10; num 20] (num 101) = None ∧
  calculatePercentile [num 30; num 10; num 20] (- num 5)
  = Some (minimum [num 30; num 10; num 20]).
Proof.
  assert ([num 30; num 10; num 20] ≠ []) as Hne by discriminate.
  assert (num 100 < num 101) as Hp by by_compute.
  assert (- num 5 ≤ 0) as Hn by by_compute.
  split_and!; [done..| |].
  - by apply (calculatePercentile_defined [num 30; num 10; num 20] (num 101)).
  - by apply (calculatePercentile_defined [num 30; num 10; num 20] (- num 5)).
Defined.



(** ** Per-category metrics *)

Lemma foldl_add_entry (es : list Entry) (m : RequestTypeMetrics) :
  foldl (λ m e, add_entry e m) m es =
    {| count := count m + length es;
       rt_totalTime := rt_totalTime m + sum_Qc (entry_time <$> es);
       rt_totalSize := rt_totalSize m + sum_Qc (entry_size <$> es);
       averageTime := averageTime m |}.
Proof.
  revert m. induction es as [|e es IH]; intros m.
  - destruct m. simpl. rewrite Nat.add_0_r. unfold sum_Qc. simpl.
    by rewrite !Qcplus_0_r.
  - cbn [foldl]. rewrite IH. unfold add_entry, sum_Qc. csimpl.
    f_equal; [lia|ring|ring].
Qed.

Lemma foldl_categorize_entry_lookup entries categories c :
  foldl categorize_entry categories entries !! category_key c
  = (λ m, foldl (λ m e, add_entry e m) m (entries_of_category c entries))
    <$> categories !! category_key c.
Proof.
  revert categories. induction entries as [|e entries IH]; intros categories.
  - simpl. by destruct (categories !! category_key c).
  - cbn [foldl]. rewrite IH. unfold entries_of_category, categorize_entry.
    rewrite filter_cons. case_decide as Hc.
    + subst c. rewrite lookup_alter_eq.
      by destruct (categories !! category_key (category_of e)).
    + rewrite lookup_alter_ne; [done|]. by intros ?%category_key_inj.
Qed.

Lemma categorizeRequests_lookup (entries : list Entry) (c : Category) :
  let selected := entries_of_category c entries in
  categorizeRequests entries !! category_key c = Some
    {| count := length selected;
       rt_totalTime := sum_Qc (entry_time <$> selected);
       rt_totalSize := sum_Qc (entry_size <$> selected);
       averageTime :=
         if decide (selected = []) then None
         else Some (sum_Qc (entry_time <$> selected)
                    / num_of_nat (length selected)) |}.
Proof.
  intros selected. destruct entries as [|e0 es].
  { simpl. by rewrite initial_categories_lookup. }
  unfold categorizeRequests. rewrite lookup_fmap, foldl_categorize_entry_lookup.
  rewrite initial_categories_lookup. cbn [fmap option_fmap option_map].
  rewrite foldl_add_entry. fold selected. unfold zero_metrics. cbn [count
    rt_totalTime rt_totalSize averageTime]. rewrite !Qcplus_0_l, Nat.add_0_l.
  unfold set_averageTime. cbn [count rt_totalTime rt_totalSize averageTime].
  destruct selected as [|s selected'] eqn:Hsel.
  - by rewrite bool_decide_eq_false_2 by (simpl; lia).
  - rewrite bool_decide_eq_true_2 by (simpl; lia). by rewrite decide_False.
Qed.

(** X7. For every category, [categorizeRequests] records the number of
    entries that [category_of] puts there, the sum of their times and of
    their sizes, and as [averageTime] their quotient, absent when the
    category has no entry. *)
Theorem categorizeRequests_per_category (entries : list Entry) (c : Category) :
  let categories := categorizeRequests entries in
  let selected := entries_of_category c entries in
  category_count categories c = length selected ∧
  category_totalTime categories c = sum_Qc (entry_time <$> selected) ∧
  category_totalSize categories c = sum_Qc (entry_size <$> selected) ∧
  ∃ m, categories !! category_key c = Some m ∧
       averageTime m =
         if decide (selected = []) then None
         else Some (category_totalTime categories c
                    / num_of_nat (category_count categories c)).
Proof.
  intros categories selected.
  unfold category_count, category_totalTime, category_totalSize, categories.
  rewrite categorizeRequests_lookup. fold selected. cbn.
  split_and!; [done..|]. by eexists.
Qed.

Lemma sum_Qc_cons (x : Qc) (l : list Qc) : sum_Qc (x :: l) = x + sum_Qc l.
Proof. reflexivity. Qed.






(** ** Accounting of API calls *)

Section api_accounting.
Variable URL_pathname : string → option string.

Lemma record_call_call_key endpoints log call :
  record_call URL_pathname (endpoints, log) call =
    match call_key URL_pathname call with
    | Some key =>
        (<[key := add_sample (entry_time call)
                    (default new_endpoint (endpoints !! key))]> endpoints, log)
    | None => (endpoints, log ++ [invalid_url_warning call])
    end.
Proof.
  unfold record_call, call_key. destruct (request call) as [req|]; [|done].
  by destruct (URL_pathname _).
Qed.

Lemma endpoint_calls_insert_fresh endpoints key m :
  endpoints !! key = None →
  endpoint_calls (<[key := m]> endpoints) = (ep_count m + endpoint_calls endpoints)%nat.
Proof.
  intros Hnone. unfold endpoint_calls.
  by rewrite (map_fold_insert_L _ _ key m endpoints) by (intros; lia || done).
Qed.

Lemma endpoint_calls_lookup endpoints key old :
  endpoints !! key = Some old →
  endpoint_calls endpoints = (ep_count old + endpoint_calls (delete key endpoints))%nat.
Proof.
  intros Hold. rewrite <-(insert_delete_id endpoints key old Hold) at 1.
  apply endpoint_calls_insert_fresh, lookup_delete_eq.
Qed.

Lemma endpoint_calls_record_call endpoints log call :
  let result := record_call URL_pathname (endpoints, log) call in
  (endpoint_calls result.1 + length result.2
   = S (endpoint_calls endpoints + length log))%nat.
Proof.
  rewrite record_call_call_key. destruct (call_key _ _) as [key|]; simpl.
  - destruct (endpoints !! key) as [old|] eqn:Hold; simpl.
    + rewrite <-insert_delete_eq.
      rewrite endpoint_calls_insert_fresh by apply lookup_delete_eq.
      rewrite (endpoint_calls_lookup endpoints key old Hold). simpl. lia.
    + rewrite endpoint_calls_insert_fresh by done. simpl. lia.
  - rewrite length_app. simpl. lia.
Qed.

Lemma endpoint_calls_foldl calls endpoints log :
  let result := foldl (record_call URL_pathname) (endpoints, log) calls in
  (endpoint_calls result.1 + length result.2
   = endpoint_calls endpoints + length log + length calls)%nat.
Proof.
  revert endpoints log. induction calls as [|call calls IH]; intros endpoints log.
  - simpl. lia.
  - cbn [foldl]. pose proof (endpoint_calls_record_call endpoints log call) as Hstep.
    destruct (record_call URL_pathname (endpoints, log) call) as [e1 l1].
    cbv zeta in *. rewrite IH. simpl in *. lia.
Qed.

Lemma endpoint_calls_fmap_set_ep_averageTime endpoints :
  endpoint_calls (set_ep_averageTime <$> endpoints) = endpoint_calls endpoints.
Proof.
  unfold endpoint_calls.
  induction endpoints as [|key m endpoints Hnone Hfold IH] using map_first_key_ind.
  - by rewrite fmap_empty.
  - rewrite fmap_insert.
    fold (endpoint_calls (<[key:=set_ep_averageTime m]> (set_ep_averageTime <$> endpoints))).
    fold (endpoint_calls (<[key:=m]> endpoints)).
    rewrite !endpoint_calls_insert_fresh by (by rewrite ?lookup_fmap, ?Hnone).
    unfold endpoint_calls at 1 2. rewrite IH.
    unfold set_ep_averageTime. by case_bool_decide.
Qed.

(** X9. Every API call is counted on exactly one endpoint or reported
    by one warning: [totalCalls] is the sum of the endpoints' [count]s
    plus the number of warnings logged. *)
Theorem getApiMetrics_accounting (entries : list Entry) :
  let result := getApiMetrics URL_pathname entries in
  totalCalls result.1
  = (endpoint_calls (endpoints result.1) + length result.2)%nat.
Proof.
  rewrite getApiMetrics_unfold. cbv zeta. cbn [fst snd totalCalls endpoints].
  rewrite endpoint_calls_fmap_set_ep_averageTime.
  pose proof (endpoint_calls_foldl (filter (λ e, is_api_call e) entries) ∅ []) as H.
  cbv zeta in H. rewrite H. unfold endpoint_calls. rewrite map_fold_empty. simpl. lia.
Qed.

End api_accounting.

(** ** Per-endpoint metrics *)

Lemma foldl_ext_min_Finite (q : Qc) (l : list Qc) :
  foldl ext_min (Finite q) l = Finite (foldl Math_min q l).
Proof. revert q. induction l as [|t l IH]; intros q; [done|]. simpl. apply IH. Qed.

Lemma foldl_add_sample (calls : list Entry) (m : EndpointMetrics) :
  foldl (λ m c, add_sample (entry_time c) m) m calls =
    {| ep_count := ep_count m + length calls;
       ep_totalTime := ep_totalTime m + sum_Qc (entry_time <$> calls);
       ep_averageTime := ep_averageTime m;
       minTime := foldl ext_min (minTime m) (entry_time <$> calls);
       maxTime := foldl Math_max (maxTime m) (entry_time <$> calls) |}.
Proof.
  revert m. induction calls as [|c calls IH]; intros m.
  - destruct m. simpl. rewrite Nat.add_0_r. unfold sum_Qc. simpl.
    by rewrite Qcplus_0_r.
  - cbn [foldl]. rewrite IH. unfold add_sample. rewrite fmap_cons, sum_Qc_cons.
    cbn [ep_count ep_totalTime ep_averageTime minTime maxTime foldl length].
    f_equal; [lia|ring].
Qed.

Section per_endpoint.
Variable URL_pathname : string → option string.

Lemma foldl_record_call_lookup calls endpoints log key :
  (foldl (record_call URL_pathname) (endpoints, log) calls).1 !! key =
    match filter (λ c, call_key URL_pathname c = Some key) calls with
    | [] => endpoints !! key
    | samples =>
        Some (foldl (λ m c, add_sample (entry_time c) m)
                (default new_endpoint (endpoints !! key)) samples)
    end.
Proof.
  revert endpoints log. induction calls as [|call calls IH]; intros endpoints log.
  - done.
  - cbn [foldl]. rewrite record_call_call_key, filter_cons.
    destruct (call_key URL_pathname call) as [key'|] eqn:Hkey.
    + rewrite IH. destruct (decide (key' = key)) as [->|Hne].
      * rewrite decide_True by done. rewrite lookup_insert_eq. cbn [foldl].
        by destruct (filter _ calls).
      * rewrite decide_False by congruence. by rewrite lookup_insert_ne.
    + rewrite IH. by rewrite decide_False.
Qed.

(** X10. The [endpoints] map has a key exactly when some API call is
    recorded under it, and its record holds the number of those calls,
    the sum of their times, the average, the smallest time, and the
    largest of their times and 0. *)
Theorem getApiMetrics_per_endpoint (entries : list Entry) (key : string) :
  let calls := filter (λ c, call_key URL_pathname c = Some key)
                 (filter (λ e, is_api_call e) entries) in
  let times := entry_time <$> calls in
  endpoints (getApiMetrics URL_pathname entries).1 !! key =
    if decide (calls = []) then None
    else Some {| ep_count := length calls;
                 ep_totalTime := sum_Qc times;
                 ep_averageTime := sum_Qc times / num_of_nat (length calls);
                 minTime := Finite (minimum times);
                 maxTime := maximum (0 :: times) |}.
Proof.
  intros calls times. rewrite getApiMetrics_unfold. cbv zeta.
  cbn [fst endpoints]. rewrite lookup_fmap, foldl_record_call_lookup.
  fold calls. rewrite lookup_empty. cbn [default from_option id].
  destruct calls as [|c calls'] eqn:Hcalls; [done|].
  rewrite decide_False by done. rewrite foldl_add_sample.
  cbn [fmap option_fmap option_map]. f_equal.
  unfold set_ep_averageTime, new_endpoint.
  cbn [ep_count ep_totalTime ep_averageTime minTime maxTime].
  rewrite bool_decide_eq_true_2 by (simpl; lia).
  rewrite Qcplus_0_l, Nat.add_0_l. f_equal.
  unfold times. rewrite fmap_cons. cbn [foldl ext_min minimum].
  apply foldl_ext_min_Finite.
Qed.

End per_endpoint.

(** ** Rankings *)

Section sort_by_key.
Context {A : Type} (key : A → Qc).

(** Sorting by decreasing key, as [(a, b) => key(b) - key(a)] does. *)
Let cmp : A → A → Qc := λ a b, key b - key a.

Lemma sort_insert_stable (v : Qc) (x : A) (l : list A) :
  filter (λ a, key a = v) (sort_insert cmp x l)
  = filter (λ a, key a = v) (x :: l).
Proof.
  induction l as [|y l IH]; [done|]. cbn [sort_insert].
  case_bool_decide as Hxy; [done|].
  rewrite filter_cons, IH, !filter_cons.
  assert (key x ≠ key y) as Hne.
  { intros Heq. apply Hxy. unfold cmp. rewrite Heq.
    apply Qc_sub_le_0, Qcle_refl. }
  repeat case_decide; congruence.
Qed.

Lemma Array_sort_stable (v : Qc) (l : list A) :
  filter (λ a, key a = v) (Array_sort cmp l) = filter (λ a, key a = v) l.
Proof.
  induction l as [|x l IH]; [done|]. cbn [Array_sort foldr].
  fold (Array_sort cmp l). rewrite sort_insert_stable, !filter_cons.
  by rewrite IH.
Qed.

Lemma StronglySorted_Array_sort_desc (l : list A) :
  StronglySorted (λ a b, key b ≤ key a) (Array_sort cmp l).
Proof.
  apply Sorted_StronglySorted.
  { intros a b c Hab Hbc. by etrans. }
  eapply Sorted_weaken, (Sorted_Array_sort cmp).
  - intros a b Hab. unfold cmp in Hab. by apply Qc_sub_le_0.
  - intros a b. unfold cmp. rewrite !Qc_sub_le_0.
    destruct (Qc_le_total (key a) (key b)); auto.
Qed.

Lemma take_drop_sorted (R : relation A) (n : nat) (l : list A) (x y : A) :
  StronglySorted R l → x ∈ take n l → y ∈ drop n l → R x y.
Proof.
  intros Hs Hx Hy. rewrite <-(take_drop n l) in Hs.
  by eapply StronglySorted_app_1_elem_of.
Qed.
End sort_by_key.

(** X11. [getSlowRequests] takes the entries that have a request and a
    response, sorts them by decreasing time keeping entries of equal time
    in their order, and returns the first [limit]: no entry left out is
    slower than one returned. *)
Theorem getSlowRequests_spec (entries : list Entry) (limit : nat) :
  let eligible := filter has_request_and_response entries in
  let sorted := Array_sort (λ a b, entry_time b - entry_time a) eligible in
  getSlowRequests entries limit = slow_request_info <$> take limit sorted ∧
  sorted ≡ₚ eligible ∧
  StronglySorted (λ a b, entry_time b ≤ entry_time a) sorted ∧
  (∀ t, filter (λ e, entry_time e = t) sorted
        = filter (λ e, entry_time e = t) eligible) ∧
  (∀ kept dropped, kept ∈ take limit sorted → dropped ∈ drop limit sorted →
                   entry_time dropped ≤ entry_time kept) ∧
  length (getSlowRequests entries limit) = (limit `min` length eligible)%nat.
Proof.
  intros eligible sorted. split_and!.
  - destruct entries; [by destruct limit|done].
  - apply Array_sort_Permutation.
  - apply StronglySorted_Array_sort_desc.
  - intros t. apply (Array_sort_stable entry_time).
  - intros kept dropped Hk Hd.
    eapply (take_drop_sorted (λ a b, entry_time b ≤ entry_time a));
      [apply StronglySorted_Array_sort_desc|done..].
  - destruct entries as [|e es]; [simpl; lia|].
    unfold getSlowRequests. rewrite length_fmap, length_take, length_Array_sort.
    done.
Qed.

(** X12. [getLargestRequests] returns the first [limit] of the entries
    with a body size, by decreasing size and with entries of equal size
    in their order: no entry left out is larger than one returned. *)
Theorem getLargestRequests_top (entries : list Entry) (limit : nat) :
  let eligible := filter (λ e, truthy (entry_bodySize e)) entries in
  let sorted := Array_sort (λ a b, entry_size b - entry_size a) eligible in
  getLargestRequests entries limit = large_request_info <$> take limit sorted ∧
  sorted ≡ₚ eligible ∧
  (∀ s, filter (λ e, entry_size e = s) sorted
        = filter (λ e, entry_size e = s) eligible) ∧
  (∀ kept dropped, kept ∈ take limit sorted → dropped ∈ drop limit sorted →
                   entry_size dropped ≤ entry_size kept) ∧
  length (getLargestRequests entries limit) = (limit `min` length eligible)%nat.
Proof.
  intros eligible sorted. split_and!.
  - apply getLargestRequests_unfold.
  - apply Array_sort_Permutation.
  - intros s. apply (Array_sort_stable entry_size).
  - intros kept dropped Hk Hd.
    eapply (take_drop_sorted (λ a b, entry_size b ≤ entry_size a));
      [apply StronglySorted_Array_sort_desc|done..].
  - rewrite getLargestRequests_unfold, length_fmap, length_take, length_Array_sort.
    done.
Qed.

(** X13. [getFailedRequests] lists, in the order of the trace, the
    entries with a status of 400 or more; their number is
    [summary.failedRequests]. *)
Theorem getFailedRequests_spec (entries : list Entry) :
  getFailedRequests entries
    = failed_request_info <$> filter (λ e, is_failed e) entries ∧
  length (getFailedRequests entries) = failedRequests (calculateSummary entries) ∧
  (∀ info, info ∈ getFailedRequests entries →
           ∃ code, fr_status info = Some code ∧ num 400 ≤ code).
Proof.
  assert (getFailedRequests entries
          = failed_request_info <$> filter (λ e, is_failed e) entries) as Heq
    by (by destruct entries).
  rewrite Heq. split_and!; [done| |].
  - rewrite length_fmap. by destruct entries.
  - intros info (e & -> & [He _]%list_elem_of_filter)%list_elem_of_fmap.
    unfold is_failed in He. simpl.
    destruct (response e ≫= status) as [code|]; [|done].
    exists code. split; [done|]. by apply bool_decide_unpack in He.
Qed.

(** ** Threshold levels *)

Lemma elem_of_guarded {A B : Type} (o : option B) (P : B → Prop)
    `{∀ b, Decision (P b)} (f : B → A) (v : A) :
  v ∈ match o with
      | Some b => if bool_decide (P b) then [f b] else []
      | None => []
      end
  ↔ ∃ b, o = Some b ∧ P b ∧ v = f b.
Proof.
  destruct o as [b|].
  - case_bool_decide as HP.
    + rewrite list_elem_of_singleton. split; [intros ->; by exists b|].
      by intros (b' & [= <-] & _ & ->).
    + split; [by intros ?%elem_of_nil|]. by intros (b' & [= <-] & ? & _).
  - split; [by intros ?%elem_of_nil|]. by intros (b' & ? & _).
Qed.

Lemma elem_of_checkThresholds th report v :
  v ∈ checkThresholds (Some th) report ↔
    (∃ bound, maxAverageResponseTime th = Some bound ∧
              (bound ≠ 0 ∧ bound < averageResponseTime (summary report)) ∧
              v = {| metric := "averageResponseTime";
                     threshold := bound;
                     actual := averageResponseTime (summary report);
                     message := "Average response time exceeded threshold" |}) ∨
    (∃ bound, maxFailedRequests th = Some bound ∧
              bound < num_of_nat (failedRequests (summary report)) ∧
              v = {| metric := "failedRequests";
                     threshold := bound;
                     actual := num_of_nat (failedRequests (summary report));
                     message := "Failed requests exceeded threshold" |}).
Proof.
  rewrite checkThresholds_spec, elem_of_app.
  rewrite (elem_of_guarded (maxAverageResponseTime th)
             (λ bound, bound ≠ 0 ∧ bound < averageResponseTime (summary report))).
  by rewrite (elem_of_guarded (maxFailedRequests th)
             (λ bound, bound < num_of_nat (failedRequests (summary report)))).
Qed.

Lemma flags_iff th report m :
  flags th report m ↔
    (m = "averageResponseTime" ∧
     ∃ bound, maxAverageResponseTime th = Some bound ∧ bound ≠ 0 ∧
              bound < averageResponseTime (summary report)) ∨
    (m = "failedRequests" ∧
     ∃ bound, maxFailedRequests th = Some bound ∧
              bound < num_of_nat (failedRequests (summary report))).
Proof.
  unfold flags. split.
  - intros (v & [(b & Hb & [Hnz Hlt] & ->)|(b & Hb & Hlt & ->)]%elem_of_checkThresholds
              & <-); [left|right]; (split; [done|]); exists b; by split_and!.
  - intros [(-> & b & Hb & Hnz & Hlt)|(-> & b & Hb & Hlt)];
      (eexists; split; [apply elem_of_checkThresholds|]).
    + left. exists b. by split_and!.
    + done.
    + right. exists b. by split_and!.
    + done.
Qed.

(** X14. [checkThresholds] returns at most two violations, with
    different metrics, and in each of them the actual value, taken from
    the summary, exceeds the threshold. *)
Theorem checkThresholds_sound (thresholds : option PerformanceThresholds)
    (report : PerformanceReport) :
  (length (checkThresholds thresholds report) ≤ 2)%nat ∧
  NoDup (metric <$> checkThresholds thresholds report) ∧
  ∀ v, v ∈ checkThresholds thresholds report →
       threshold v < actual v ∧
       ((metric v = "averageResponseTime" ∧
         actual v = averageResponseTime (summary report)) ∨
        (metric v = "failedRequests" ∧
         actual v = num_of_nat (failedRequests (summary report)))).
Proof.
  destruct thresholds as [th|].
  2:{ split_and!; [simpl; lia|constructor|by intros v ?%elem_of_nil]. }
  split_and!.
  - rewrite checkThresholds_spec, length_app.
    destruct (maxAverageResponseTime th), (maxFailedRequests th);
      repeat case_bool_decide; simpl; lia.
  - rewrite checkThresholds_spec.
    destruct (maxAverageResponseTime th), (maxFailedRequests th);
      repeat case_bool_decide; simpl;
      apply NoDup_ListNoDup; repeat constructor; simpl; intuition discriminate.
  - intros v [(b & _ & [_ Hlt] & ->)|(b & _ & Hlt & ->)]%elem_of_checkThresholds;
      simpl; (split; [done|]); [by left|by right].
Qed.

(** X15. Lowering the two bounds that are checked never removes a
    violation: what is reported under the bounds [th] is reported under
    bounds [th'] that are no larger (and not 0 for the average). *)
Theorem checkThresholds_tighten (th th' : PerformanceThresholds)
    (report : PerformanceReport) (m : string) :
  (∀ b, maxAverageResponseTime th = Some b → b ≠ 0 →
        ∃ b', maxAverageResponseTime th' = Some b' ∧ b' ≠ 0 ∧ b' ≤ b) →
  (∀ b, maxFailedRequests th = Some b →
        ∃ b', maxFailedRequests th' = Some b' ∧ b' ≤ b) →
  flags th report m → flags th' report m.
Proof.
  intros Havg Hfailed. rewrite !flags_iff.
  intros [(-> & b & Hb & Hnz & Hlt)|(-> & b & Hb & Hlt)]; [left|right].
  - destruct (Havg b Hb Hnz) as (b' & Hb' & Hnz' & Hle).
    split; [done|]. exists b'. split_and!; [done..|]. by eapply Qcle_lt_trans.
  - destruct (Hfailed b Hb) as (b' & Hb' & Hle).
    split; [done|]. exists b'. split; [done|]. by eapply Qcle_lt_trans.
Qed.

(** X16. [getThresholds] with a level ignores the environment; without
    one, an environment value that names no level gives the default
    level; and what the relaxed level reports the default level reports,
    and what the default level reports the strict level reports. *)
Theorem getThresholds_levels (report : PerformanceReport) (m : string)
    (envLevel envLevel' : option string) (level : ThresholdLevel) :
  getThresholds (Some level) envLevel = getThresholds (Some level) envLevel' ∧
  (envLevel ≫= level_of_env = None →
   getThresholds None envLevel = getThresholds (Some level_default) envLevel') ∧
  (flags (getThresholds (Some level_relaxed) envLevel) report m →
   flags (getThresholds (Some level_default) envLevel) report m) ∧
  (flags (getThresholds (Some level_default) envLevel) report m →
   flags (getThresholds (Some level_strict) envLevel) report m).
Proof.
  split_and!.
  - done.
  - unfold getThresholds. by intros ->.
  - unfold getThresholds. rewrite !flags_iff. simpl.
    intros [(-> & b & [= <-] & _ & Hlt)|(-> & b & [= <-] & Hlt)]; [left|right].
    + split; [done|]. exists (num 3000). split_and!; [done|by_compute|].
      eapply Qclt_trans; [|exact Hlt]. by_compute.
    + split; [done|]. exists (num 0). split; [done|].
      eapply Qclt_trans; [|exact Hlt]. by_compute.
  - unfold getThresholds. rewrite !flags_iff. simpl.
    intros [(-> & b & [= <-] & _ & Hlt)|(-> & b & [= <-] & Hlt)]; [left|right].
    + split; [done|]. exists (num 1000). split_and!; [done|by_compute|].
      eapply Qclt_trans; [|exact Hlt]. by_compute.
    + split; [done|]. by exists (num 0).
Qed.

(** ** Configuration *)

(** X17. Whatever names are passed or found in the environment,
    [getConfig] returns a configuration with [harDir], [reportDir],
    [recordHarMode] and [captureScreenshots]. *)
Theorem getConfig_complete (environment testType TEST_ENV TEST_TYPE : option string) :
  let c := getConfig environment testType TEST_ENV TEST_TYPE in
  is_Some (harDir c) ∧ is_Some (reportDir c) ∧
  is_Some (recordHarMode c) ∧ is_Some (captureScreenshots c).
Proof.
  unfold getConfig. cbv zeta.
  generalize (default "local" (truthy_string environment ∪ truthy_string TEST_ENV)).
  generalize (default "regression" (truthy_string testType ∪ truthy_string TEST_TYPE)).
  intros type env. unfold environments, testTypes.
  repeat match goal with
         | |- context [String.eqb ?a ?b] => destruct (String.eqb a b)
         end; simpl; split_and!; by eexists.
Qed.

(** X18. [getConfig] prefers its arguments to the environment
    variables, and in the result the settings of the test type replace
    those of the environment, which replace the defaults. *)
Theorem getConfig_precedence (environment testType TEST_ENV TEST_TYPE : option string) :
  let env := default "local" (truthy_string environment ∪ truthy_string TEST_ENV) in
  let type := default "regression" (truthy_string testType ∪ truthy_string TEST_TYPE) in
  let c := getConfig environment testType TEST_ENV TEST_TYPE in
  (∀ e, truthy_string environment = Some e → env = e) ∧
  (∀ t, truthy_string testType = Some t → type = t) ∧
  cfg_testName c = cfg_testName (testTypes type) ∧
  harDir c = harDir (environments env) ∪ harDir config_default ∧
  reportDir c = reportDir (environments env) ∪ reportDir config_default ∧
  recordHarMode c
    = recordHarMode (testTypes type) ∪ recordHarMode (environments env)
      ∪ recordHarMode config_default ∧
  captureScreenshots c
    = captureScreenshots (testTypes type) ∪ captureScreenshots (environments env)
      ∪ captureScreenshots config_default ∧
  cfg_customMetrics c
    = cfg_customMetrics (testTypes type) ∪ cfg_customMetrics (environments env).
Proof.
  intros env type c. split_and!.
  - intros e He. unfold env. rewrite He. by destruct (truthy_string TEST_ENV).
  - intros t Ht. unfold type. rewrite Ht. by destruct (truthy_string TEST_TYPE).
  - unfold c, getConfig. fold env type. simpl.
    unfold environments.
    destruct (String.eqb env "local"), (String.eqb env "staging"),
             (String.eqb env "production"); simpl;
      by destruct (cfg_testName (testTypes type)).
  - unfold c, getConfig. fold env type. simpl. unfold testTypes.
    destruct (String.eqb type "smoke"), (String.eqb type "regression"),
             (String.eqb type "performance"); simpl;
      by destruct (harDir (environments env)).
  - unfold c, getConfig. fold env type. simpl. unfold testTypes.
    destruct (String.eqb type "smoke"), (String.eqb type "regression"),
             (String.eqb type "performance"); simpl;
      by destruct (reportDir (environments env)).
  - unfold c, getConfig. fold env type. simpl.
    by destruct (recordHarMode (testTypes type)),
                (recordHarMode (environments env)).
  - unfold c, getConfig. fold env type. simpl.
    by destruct (captureScreenshots (testTypes type)),
                (captureScreenshots (environments env)).
  - unfold c, getConfig. fold env type. simpl.
    by destruct (cfg_customMetrics (testTypes type)),
                (cfg_customMetrics (environments env)).
Qed.

(** X19. After [setThreshold(key, value)] the built thresholds hold
    [value] at [key], the other keys and the configuration are as
    before; a second value for the same key replaces the first, and
    values for different keys can be set in either order. *)
Theorem builder_setThreshold (b : PerformanceConfigBuilder)
    (key key' : ThresholdKey) (value value' : Qc) :
  let b' := setThreshold key value b in
  get_threshold (build b').2 key = Some value ∧
  (key' ≠ key → get_threshold (build b').2 key' = get_threshold (build b).2 key') ∧
  (build b').1 = (build b).1 ∧
  build (setThreshold key value' b') = build (setThreshold key value' b) ∧
  (key' ≠ key →
   build (setThreshold key' value' b') = build (setThreshold key value (setThreshold key' value' b))).
Proof.
  cbv zeta. unfold build, setThreshold, set_threshold. simpl. split_and!.
  - by destruct key.
  - intros Hne. destruct key, key'; simpl; done.
  - done.
  - f_equal. destruct key; simpl; done.
  - intros Hne. f_equal. destruct key, key'; simpl; done.
Qed.


(** ** Comparison and aggregation *)

Lemma Math_max_1_neq_0 (x : Qc) : Math_max x 1 ≠ 0.
Proof.
  intros Hz. pose proof (Math_max_r x 1) as H. rewrite Hz in H.
  revert H. by apply Qclt_not_le.
Qed.

(** X21. The differences of [compareReports] change sign when the
    reports are swapped; a report compared with itself gives differences
    of 0 and a failure-rate improvement of 0.00, and a response-time
    improvement of 0.00 unless its average is 0, when the division by
    zero makes it NaN (or an infinity for two different reports). *)
Theorem compareReports_spec (report1 report2 : PerformanceReport) :
  let c := compareReports report1 report2 in
  let c' := compareReports report2 report1 in
  let self := compareReports report1 report1 in
  averageResponseTimeDiff c = - averageResponseTimeDiff c' ∧
  totalRequestsDiff c = (- totalRequestsDiff c')%Z ∧
  failedRequestsDiff c = (- failedRequestsDiff c')%Z ∧
  averageResponseTimeDiff self = 0 ∧
  totalRequestsDiff self = 0%Z ∧
  failedRequestsDiff self = 0%Z ∧
  pi_failureRate (percentageImprovement self) = "0.00" ∧
  pi_responseTime (percentageImprovement self)
    = (if decide (averageResponseTime (summary report1) = 0) then "NaN" else "0.00") ∧
  (averageResponseTime (summary report1) = 0 →
   pi_responseTime (percentageImprovement c) ∈ ["NaN"; "Infinity"; "-Infinity"]).
Proof.
  cbv zeta. unfold compareReports. simpl. split_and!.
  - ring.
  - lia.
  - lia.
  - ring.
  - lia.
  - lia.
  - unfold percent_toFixed2.
    rewrite bool_decide_eq_false_2 by apply Math_max_1_neq_0.
    rewrite Z.sub_diag. replace (num 0 / _ * num 100) with 0; [by_compute|].
    unfold Qcdiv. replace (num 0) with 0 by (by apply Qc_is_canon). ring.
  - unfold percent_toFixed2. case_decide as Hz.
    + rewrite Hz. by_compute.
    + rewrite bool_decide_eq_false_2 by done.
      replace (_ / _ * num 100) with 0; [by_compute|].
      unfold Qcdiv. ring.
  - intros Hz. unfold percent_toFixed2. rewrite bool_decide_eq_true_2 by done.
    repeat case_bool_decide; set_solver.
Qed.

Lemma compareReports_spec_witness :
  let report := {| testName := None;
                   summary := calculateSummary [];
                   requestTypes := ∅;
                   performance := {| slowestRequests := [];
                                     perf_failedRequests := [];
                                     largestRequests := [] |};
                   apiMetrics := {| totalCalls := 0; endpoints := ∅ |};
                   customMetrics := ∅;
                   thresholdViolations := None |} in
  averageResponseTime (summary report) = 0 ∧
  pi_responseTime (percentageImprovement (compareReports report report)) = "NaN".
Proof.
  intros report.
  assert (averageResponseTime (summary report) = 0) as Hz by reflexivity.
  split; [done|].
  destruct (compareReports_spec report report) as (_ & _ & _ & _ & _ & _ & _ & H & _).
  rewrite H. by rewrite decide_True.
Defined.






(** ** Url truncation, test duration, badges and report consistency *)





(** X25. The badge is ISSUES exactly when there are threshold
    violations; without violations a test without an average response
    time is SLOW, and a larger average never gives a better badge. *)
Theorem getPerformanceBadge_spec (p : TestPerformance) :
  let violations := default [] (tp_thresholdViolations p) in
  (getPerformanceBadge (Some p) = badge_ISSUES ↔ violations ≠ []) ∧
  (violations = [] → tp_averageResponseTime p = None →
   getPerformanceBadge (Some p) = badge_SLOW) ∧
  (∀ a a', violations = [] → a ≤ a' →
     (badge_rank
        (getPerformanceBadge
           (Some {| tp_averageResponseTime := Some a;
                    tp_thresholdViolations := tp_thresholdViolations p |}))
      ≤ badge_rank
          (getPerformanceBadge
             (Some {| tp_averageResponseTime := Some a';
                      tp_thresholdViolations := tp_thresholdViolations p |})))%nat).
Proof.
  intros violations. unfold violations. split_and!.
  - unfold getPerformanceBadge.
    destruct (tp_thresholdViolations p) as [[|v l]|]; simpl;
      destruct (tp_averageResponseTime p); repeat case_bool_decide; split;
      try done; try lia.
  - intros Hv Ha. unfold getPerformanceBadge. rewrite Ha.
    destruct (tp_thresholdViolations p) as [[|v l]|]; simpl in *;
      rewrite ?bool_decide_eq_false_2 by lia; done.
  - intros a a' Hv Hle. unfold getPerformanceBadge.
    cbn [tp_averageResponseTime tp_thresholdViolations].
    assert (match tp_thresholdViolations p with
            | Some violations => bool_decide (0 < length violations)%nat
            | None => false
            end = false) as ->.
    { destruct (tp_thresholdViolations p) as [[|v l]|]; simpl in *;
        rewrite ?bool_decide_eq_false_2 by lia; done. }
    repeat case_bool_decide; simpl; try lia.
    all: exfalso.
    all: repeat match goal with
                | H : ¬ _ < _ |- _ => apply Qcnot_lt_le in H
                end.
    all: unfold Qclt, Qcle in *; rewrite ?this_num in *.
    all: repeat match goal with
                | H : context [this (num ?z)] |- _ => rewrite (this_num z) in H
                end.
    all: change (inject_Z 1000) with 1000%Q in *;
      change (inject_Z 3000) with 3000%Q in *; lra.
Qed.

Section report_consistency.
Variable URL_pathname : string → option string.

Lemma checkThresholds_summary thresholds report report' :
  summary report = summary report' →
  checkThresholds thresholds report = checkThresholds thresholds report'.
Proof. intros H. unfold checkThresholds. by rewrite H. Qed.

Lemma generateReport_thresholdViolations this report log :
  generateReport URL_pathname this = (Some report, log) →
  thresholdViolations report
  = (λ th, checkThresholds (Some th) report) <$> monitor_thresholds this.
Proof.
  unfold generateReport.
  destruct (harFile this) as [| |harData]; [done..|].
  destruct (default [] _) as [|e entries]; [done|].
  destruct (getApiMetrics _ _) as [api log'].
  destruct (monitor_thresholds this) as [th|]; intros [= <- <-]; [|done].
  simpl. f_equal.
Qed.

(** X26. In a report that [generateReport] returns, the violations are
    present exactly when thresholds were set and each has an actual value
    above its threshold; the list of failed requests has
    [summary.failedRequests] elements, the list of slowest requests at
    most 10, and the warnings logged are at most [apiMetrics.totalCalls],
    which is at most [summary.totalRequests]. *)
Theorem generateReport_consistent (this : Monitor) (report : PerformanceReport)
    (log : list LogLine) :
  generateReport URL_pathname this = (Some report, log) →
  (is_Some (thresholdViolations report) ↔ is_Some (monitor_thresholds this)) ∧
  (∀ violations v, thresholdViolations report = Some violations →
                   v ∈ violations → threshold v < actual v) ∧
  length (perf_failedRequests (performance report))
    = failedRequests (summary report) ∧
  (length (slowestRequests (performance report)) ≤ 10)%nat ∧
  (totalCalls (apiMetrics report) ≤ totalRequests (summary report))%nat ∧
  (length log ≤ totalCalls (apiMetrics report))%nat.
Proof.
  intros Hgen.
  pose proof (generateReport_thresholdViolations _ _ _ Hgen) as Hviol.
  apply generateReport_Some in Hgen
    as (Hne & _ & Hsum & _ & Hslow & Hfailed & _ & Hapi & _).
  split_and!.
  - rewrite Hviol. by rewrite fmap_is_Some.
  - intros violations v Hv Hin. rewrite Hviol in Hv.
    destruct (monitor_thresholds this) as [th|]; [|done].
    injection Hv as <-.
    apply elem_of_checkThresholds in Hin
      as [(b & _ & [_ Hlt] & ->)|(b & _ & Hlt & ->)]; done.
  - rewrite Hfailed, Hsum.
    destruct (trace_entries this) as [|e es]; [done|].
    unfold getFailedRequests. by rewrite length_fmap.
  - rewrite Hslow. destruct (trace_entries this) as [|e es]; [simpl; lia|].
    unfold getSlowRequests. rewrite length_fmap, length_take. lia.
  - rewrite Hsum, totalRequests_calculateSummary.
    assert (apiMetrics report = (getApiMetrics URL_pathname (trace_entries this)).1)
      as -> by (by rewrite <-Hapi).
    rewrite getApiMetrics_unfold. simpl. apply length_filter.
  - assert (apiMetrics report = (getApiMetrics URL_pathname (trace_entries this)).1)
      as -> by (by rewrite <-Hapi).
    assert (log = (getApiMetrics URL_pathname (trace_entries this)).2)
      as -> by (by rewrite <-Hapi).
    rewrite getApiMetrics_unfold. cbv zeta. cbn [fst snd totalCalls].
    rewrite foldl_record_call_log. simpl. rewrite length_fmap. apply length_filter.
Qed.

End report_consistency.

(** ** Further instances *)

Lemma calculateSummary_order_statistics_witness :
  scenario_trace ≠ [] ∧
  ∃ p95 p99,
    percentile95 (calculateSummary scenario_trace) = Some p95 ∧
    percentile99 (calculateSummary scenario_trace) = Some p99 ∧
    medianResponseTime (calculateSummary scenario_trace) ≤ p95 ∧ p95 ≤ p99.
Proof.
  assert (scenario_trace ≠ []) as Hne by discriminate.
  split; [done|].
  destruct (calculateSummary_order_statistics scenario_trace Hne)
    as (p95 & p99 & H95 & H99 & _ & _ & _ & Hmed & Hle & _).
  by exists p95, p99.
Defined.


Lemma getSlowRequests_spec_witness :
  let sorted := Array_sort (λ a b, entry_time b - entry_time a)
                  (filter has_request_and_response api_trace) in
  ∃ kept dropped,
    take 2 sorted !! 0%nat = Some kept ∧ drop 2 sorted !! 0%nat = Some dropped ∧
    entry_time dropped ≤ entry_time kept.
Proof.
  intros sorted.
  destruct (take 2 sorted !! 0%nat) as [kept|] eqn:Hk;
    [|vm_compute in Hk; discriminate].
  destruct (drop 2 sorted !! 0%nat) as [dropped|] eqn:Hd;
    [|vm_compute in Hd; discriminate].
  exists kept, dropped. split_and!; [done..|].
  destruct (getSlowRequests_spec api_trace 2) as (_ & _ & _ & _ & H & _).
  apply H; by eapply list_elem_of_lookup_2.
Defined.

Lemma getLargestRequests_top_witness :
  let sorted := Array_sort (λ a b, entry_size b - entry_size a)
                  (filter (λ e, truthy (entry_bodySize e)) api_trace) in
  ∃ kept dropped,
    take 2 sorted !! 0%nat = Some kept ∧ drop 2 sorted !! 0%nat = Some dropped ∧
    entry_size dropped ≤ entry_size kept.
Proof.
  intros sorted.
  destruct (take 2 sorted !! 0%nat) as [kept|] eqn:Hk;
    [|vm_compute in Hk; discriminate].
  destruct (drop 2 sorted !! 0%nat) as [dropped|] eqn:Hd;
    [|vm_compute in Hd; discriminate].
  exists kept, dropped. split_and!; [done..|].
  destruct (getLargestRequests_top api_trace 2) as (_ & _ & _ & H & _).
  apply H; by eapply list_elem_of_lookup_2.
Defined.

Lemma getFailedRequests_spec_witness :
  ∃ info code,
    getFailedRequests scenario_trace !! 0%nat = Some info ∧
    fr_status info = Some code ∧ num 400 ≤ code.
Proof.
  destruct (getFailedRequests scenario_trace !! 0%nat) as [info|] eqn:Hi;
    [|vm_compute in Hi; discriminate].
  destruct (getFailedRequests_spec scenario_trace) as (_ & _ & H).
  destruct (H info) as (code & Hc & Hle); [by eapply list_elem_of_lookup_2|].
  by exists info, code.
Defined.

Lemma checkThresholds_sound_witness :
  ∃ v, checkThresholds (Some no_failures_allowed) (report_of scenario_trace) !! 0%nat
       = Some v ∧
       threshold v < actual v.
Proof.
  destruct (checkThresholds (Some no_failures_allowed) (report_of scenario_trace) !! 0%nat)
    as [v|] eqn:Hv; [|vm_compute in Hv; discriminate].
  exists v. split; [done|].
  destruct (checkThresholds_sound (Some no_failures_allowed) (report_of scenario_trace))
    as (_ & _ & H).
  apply H. by eapply list_elem_of_lookup_2.
Defined.

Lemma checkThresholds_tighten_witness :
  flags no_failures_allowed (report_of scenario_trace) "failedRequests" ∧
  flags (preset_thresholds level_strict) (report_of scenario_trace) "failedRequests".
Proof.
  assert (flags no_failures_allowed (report_of scenario_trace) "failedRequests") as Hf.
  { destruct (checkThresholds (Some no_failures_allowed) (report_of scenario_trace)
                !! 0%nat) as [v|] eqn:Hv; [|vm_compute in Hv; discriminate].
    exists v. split; [by eapply list_elem_of_lookup_2|].
    vm_compute in Hv. by injection Hv as <-. }
  split; [done|].
  apply (checkThresholds_tighten no_failures_allowed (preset_thresholds level_strict)
           (report_of scenario_trace) "failedRequests"); [| |done].
  - intros b Hb. discriminate Hb.
  - intros b Hb. injection Hb as <-. exists (num 0). split; [done|by_compute].
Defined.

Lemma getThresholds_levels_witness :
  Some "lenient" ≫= level_of_env = None ∧
  getThresholds None (Some "lenient") = preset_thresholds level_default ∧
  flags (getThresholds (Some level_relaxed) None) (report_of slow_trace)
    "averageResponseTime" ∧
  flags (getThresholds (Some level_default) None) (report_of slow_trace)
    "averageResponseTime" ∧
  flags (getThresholds (Some level_strict) None) (report_of slow_trace)
    "averageResponseTime".
Proof.
  assert (Some "lenient" ≫= level_of_env = None) as Henv by reflexivity.
  assert (flags (getThresholds (Some level_relaxed) None) (report_of slow_trace)
            "averageResponseTime") as Hr.
  { apply flags_iff. left. split; [done|]. exists (num 5000).
    split_and!; [done|by_compute|by_compute]. }
  destruct (getThresholds_levels (report_of slow_trace) "averageResponseTime"
              (Some "lenient") None level_default) as (_ & Hdefault & _).
  destruct (getThresholds_levels (report_of slow_trace) "averageResponseTime"
              None None level_default) as (_ & _ & Hrd & Hds).
  split_and!; [done|by apply Hdefault|done|by apply Hrd|by apply Hds, Hrd].
Defined.

Lemma getConfig_precedence_witness :
  truthy_string (Some "staging") = Some "staging" ∧
  truthy_string (Some "smoke") = Some "smoke" ∧
  let c := getConfig (Some "staging") (Some "smoke") (Some "production") None in
  harDir c = Some "test-results/staging/har" ∧
  recordHarMode c = Some mode_minimal ∧
  captureScreenshots c = Some true ∧
  cfg_testName c = Some "smoke-test".
Proof.
  assert (truthy_string (Some "staging") = Some "staging") as He by reflexivity.
  assert (truthy_string (Some "smoke") = Some "smoke") as Ht by reflexivity.
  split_and!; [done..|]. intros c.
  destruct (getConfig_precedence (Some "staging") (Some "smoke") (Some "production") None)
    as (Henv & Htype & Hname & Hhar & _ & Hmode & Hshots & _).
  fold c in Hname, Hhar, Hmode, Hshots.
  rewrite (Henv _ He) in Hhar, Hmode, Hshots.
  rewrite (Htype _ Ht) in Hname, Hmode, Hshots.
  by rewrite Hname, Hhar, Hmode, Hshots.
Defined.

Lemma builder_setThreshold_witness :
  key_maxTotalTime ≠ key_maxFailedRequests ∧
  let b := setThreshold key_maxFailedRequests (num 0) new_builder in
  get_threshold (build b).2 key_maxFailedRequests = Some (num 0) ∧
  get_threshold (build b).2 key_maxTotalTime = None.
Proof.
  assert (key_maxTotalTime ≠ key_maxFailedRequests) as Hne by discriminate.
  split; [done|]. intros b.
  destruct (builder_setThreshold new_builder key_maxFailedRequests key_maxTotalTime
              (num 0) (num 0)) as (Hget & Hother & _).
  split; [exact Hget|]. unfold b. by rewrite (Hother Hne).
Defined.




Lemma getPerformanceBadge_spec_witness :
  let p := {| tp_averageResponseTime := None; tp_thresholdViolations := None |} in
  default [] (tp_thresholdViolations p) = [] ∧
  tp_averageResponseTime p = None ∧
  num 500 ≤ num 2000 ∧
  getPerformanceBadge (Some p) = badge_SLOW ∧
  (badge_rank (getPerformanceBadge
                 (Some {| tp_averageResponseTime := Some (num 500);
                          tp_thresholdViolations := None |}))
   ≤ badge_rank (getPerformanceBadge
                   (Some {| tp_averageResponseTime := Some (num 2000);
                            tp_thresholdViolations := None |})))%nat.
Proof.
  intros p.
  assert (default [] (tp_thresholdViolations p) = []) as Hv by reflexivity.
  assert (tp_averageResponseTime p = None) as Ha by reflexivity.
  assert (num 500 ≤ num 2000) as Hle by by_compute.
  destruct (getPerformanceBadge_spec p) as (_ & Hslow & Hmono).
  split_and!; [done|done|done|by apply Hslow|by apply (Hmono _ _ Hv Hle)].
Defined.

Lemma generateReport_consistent_witness :
  ∃ report log,
    generateReport example_pathname (monitor_of (parsed api_trace) (Some no_failures_allowed))
    = (Some report, log) ∧
    is_Some (thresholdViolations report) ∧
    length (perf_failedRequests (performance report)) = failedRequests (summary report) ∧
    (length log ≤ totalCalls (apiMetrics report))%nat.
Proof.
  destruct (generateReport example_pathname
              (monitor_of (parsed api_trace) (Some no_failures_allowed)))
    as [[report|] log] eqn:E; [|vm_compute in E; discriminate].
  exists report, log. split; [done|].
  destruct (generateReport_consistent example_pathname _ _ _ E)
    as (Hviol & _ & Hfailed & _ & _ & Hlog).
  split_and!; [|done|done]. apply Hviol. by eexists.
Defined.
